(** * envdo: directory-priority resolution and merge of .env files

    A shallow embedding of package [env] of k1LoW/envdo (env/env.go) and of
    the parts of the Go standard library it calls, followed by the
    properties of the resolver.

    Go strings are byte sequences: they are modelled as [string] (a list of
    8-bit [ascii]).  [map[string]string] is a [gmap string string].  The
    file system is read only for this package; it is an explicit oracle
    answering [os.Stat], [os.Open] and the reads of an opened file. *)

From Stdlib Require Import Ascii String List NArith Lia Bool.
From stdpp Require Import gmap strings list fin_maps.

Local Open Scope list_scope.
Local Open Scope string_scope.

(* ===================================================================== *)
(** * Package strings *)
(* ===================================================================== *)

Module Strings.

(** Bytes are compared through their numeric value. *)
Definition code (c : ascii) : N := N_of_ascii c.

(** White space as [unicode.IsSpace] defines it, on the UTF-8 encoding.
    One byte: '\t' '\n' '\v' '\f' '\r' and ' '. *)
Definition isSpace1 (a : N) : bool :=
  ((9 <=? a) && (a <=? 13) || (a =? 32))%N.

(** Two bytes: U+0085 (C2 85) and U+00A0 (C2 A0). *)
Definition isSpace2 (a b : N) : bool :=
  ((a =? 194) && ((b =? 133) || (b =? 160)))%N.

(** Three bytes: U+1680 (E1 9A 80), U+2000..U+200A (E2 80 80..8A),
    U+2028, U+2029, U+202F (E2 80 A8, A9, AF), U+205F (E2 81 9F) and
    U+3000 (E3 80 80). *)
Definition isSpace3 (a b c : N) : bool :=
  ((a =? 225) && (b =? 154) && (c =? 128)
   || (a =? 226) && (b =? 128)
      && ((128 <=? c) && (c <=? 138) || (c =? 168) || (c =? 169) || (c =? 175))
   || (a =? 226) && (b =? 129) && (c =? 159)
   || (a =? 227) && (b =? 128) && (c =? 128))%N.

(** [strings.TrimLeftFunc(s, unicode.IsSpace)]: runes are decoded from the
    front, and the white-space ones are dropped until another rune (or
    an invalid byte) is met. *)
Fixpoint trimLeft (s : list ascii) : list ascii :=
  match s with
  | a :: t =>
      if isSpace1 (code a) then trimLeft t else
      match t with
      | b :: u =>
          if isSpace2 (code a) (code b) then trimLeft u else
          match u with
          | c :: v => if isSpace3 (code a) (code b) (code c) then trimLeft v else s
          | [] => s
          end
      | [] => s
      end
  | [] => []
  end.

(** [strings.TrimRightFunc(s, unicode.IsSpace)], on the reversed bytes:
    the last rune is decoded looking back from the end. *)
Fixpoint trimLeftRev (r : list ascii) : list ascii :=
  match r with
  | a :: t =>
      if isSpace1 (code a) then trimLeftRev t else
      match t with
      | b :: u =>
          if isSpace2 (code b) (code a) then trimLeftRev u else
          match u with
          | c :: v => if isSpace3 (code c) (code b) (code a) then trimLeftRev v else r
          | [] => r
          end
      | [] => r
      end
  | [] => []
  end.

Definition trimRight (s : list ascii) : list ascii :=
  rev (trimLeftRev (rev s)).

(** [strings.TrimSpace]. *)
Definition TrimSpace (s : string) : string :=
  string_of_list_ascii (trimRight (trimLeft (list_ascii_of_string s))).

(** [strings.HasPrefix]. *)
Definition HasPrefix (s pre : string) : bool := String.prefix pre s.

(** [strings.SplitN(s, string(sep), 2)] for a one-byte separator: the
    string is cut at the first occurrence of [sep]; without one the
    result is the one-element slice holding [s]. *)
Fixpoint SplitN2 (s : string) (sep : ascii) : list string :=
  match s with
  | EmptyString => [""]
  | String c t =>
      if Ascii.eqb c sep then [""; t]
      else match SplitN2 t sep with
           | [only] => [String c only]
           | k :: rest => String c k :: rest
           | [] => []
           end
  end.

End Strings.

(* ===================================================================== *)
(** * Package path/filepath (Unix: the separator is '/') *)
(* ===================================================================== *)

Module Filepath.

Definition Separator : ascii := "/"%char.

(** The path elements between separators, empty ones included. *)
Fixpoint elements (p : string) : list string :=
  match p with
  | EmptyString => [""]
  | String c t =>
      match elements t with
      | e :: es => if Ascii.eqb c Separator then "" :: e :: es else String c e :: es
      | [] => []
      end
  end.

Definition rooted (p : string) : bool :=
  match p with
  | String c _ => Ascii.eqb c Separator
  | EmptyString => false
  end.

(** One step of [filepath.Clean]'s loop, on the stack [out] of the
    elements written so far (last one first): empty and "." elements are
    dropped, ".." removes the element before it when there is one that is
    not itself "..", is dropped at the root, and is kept otherwise. *)
Definition cleanStep (isRooted : bool) (out : list string) (el : string) : list string :=
  if String.eqb el "" then out
  else if String.eqb el "." then out
  else if String.eqb el ".." then
    match out with
    | top :: below => if String.eqb top ".." then el :: out else below
    | [] => if isRooted then out else [el]
    end
  else el :: out.

(** [filepath.Clean]: the shortest path equivalent to [p] by purely
    lexical processing. *)
Definition Clean (p : string) : string :=
  if String.eqb p "" then "."
  else
    let out := fold_left (cleanStep (rooted p)) (elements p) [] in
    let body := String.concat "/" (rev out) in
    if rooted p then "/" ++ body
    else if String.eqb body "" then "." else body.

(** [filepath.Join]: leading empty elements are ignored, the others are
    joined with the separator and the result is cleaned; the result is
    empty only when every element is. *)
Fixpoint Join (elem : list string) : string :=
  match elem with
  | [] => ""
  | e :: rest => if String.eqb e "" then Join rest
                 else Clean (String.concat "/" elem)
  end.

End Filepath.

(* ===================================================================== *)
(** * Errors, package os and package bufio *)
(* ===================================================================== *)

(** The error numbers a system call on a path can fail with. *)
Inductive Errno : Type :=
  | ENOENT | EACCES | ENOTDIR | EISDIR | ELOOP | ENAMETOOLONG | EIO.

Definition errnoText (e : Errno) : string :=
  match e with
  | ENOENT => "no such file or directory"
  | EACCES => "permission denied"
  | ENOTDIR => "not a directory"
  | EISDIR => "is a directory"
  | ELOOP => "too many levels of symbolic links"
  | ENAMETOOLONG => "file name too long"
  | EIO => "input/output error"
  end.

(** The values of Go's [error] interface that this package can meet:
    [*fs.PathError] from package os, [bufio.ErrTooLong] from the scanner
    and the wrapper that [fmt.Errorf] builds for the verb %w. *)
Inductive error : Type :=
  | PathError (op path : string) (err : Errno)
  | ErrTooLong
  | wrapError (msg : string) (err : error).

(** The method [Error()]. *)
Definition Error (e : error) : string :=
  match e with
  | PathError op path err => op ++ " " ++ path ++ ": " ++ errnoText err
  | ErrTooLong => "bufio.Scanner: token too long"
  | wrapError msg _ => msg
  end.

Module OS.

(** An opened file delivers [data] and then either end of file or the
    read error [readErr]. *)
Record File : Type := mkFile { data : string; readErr : option Errno }.

(** The file system as the package observes it.  [sysStat] and [sysOpen]
    are independent: a file can vanish between the two calls. *)
Record FS : Type := mkFS {
  sysStat : string -> option Errno;
  sysOpen : string -> Errno + File
}.

(** [os.Stat], the file information left out: [None] is success. *)
Definition Stat (fs : FS) (name : string) : option error :=
  match sysStat fs name with
  | Some e => Some (PathError "stat" name e)
  | None => None
  end.

(** [os.Open]. *)
Definition Open (fs : FS) (name : string) : error + File :=
  match sysOpen fs name with
  | inl e => inl (PathError "open" name e)
  | inr f => inr f
  end.

(** [os.IsNotExist]. *)
Definition IsNotExist (err : error) : bool :=
  match err with
  | PathError _ _ ENOENT => true
  | _ => false
  end.

End OS.

Module Bufio.

(** [bufio.MaxScanTokenSize]: the scanner's buffer never grows beyond it,
    and a line has to fit in it together with its newline. *)
Definition MaxScanTokenSize : N := 65536.

Definition newline : ascii := "010"%char.
Definition carriageReturn : ascii := "013"%char.

(** [dropCR], on a line held last byte first. *)
Definition dropCR (cur : list ascii) : list ascii :=
  match cur with
  | c :: t => if Ascii.eqb c carriageReturn then t else cur
  | [] => cur
  end.

Definition token (cur : list ascii) : string :=
  string_of_list_ascii (rev_append (dropCR cur) []).

(** The tokens [Scanner.Scan] delivers with the split function
    [ScanLines], reading [input]; [cur] holds the bytes of the current
    line (last one first) and [n] is their number.  The flag tells that
    scanning stopped at a line that does not fit the buffer. *)
Fixpoint scanFrom (input : string) (cur : list ascii) (n : N) : list string * bool :=
  match input with
  | EmptyString => if (n =? 0)%N then ([], false) else ([token cur], false)
  | String c rest =>
      if Ascii.eqb c newline then
        let '(toks, tooLong) := scanFrom rest [] 0%N in (token cur :: toks, tooLong)
      else if (MaxScanTokenSize <=? n + 1)%N then ([], true)
      else scanFrom rest (c :: cur) (n + 1)%N
  end.

Definition scanLines (input : string) : list string * bool :=
  scanFrom input [] 0%N.

(** [Scanner.Err()] once [Scan] has returned false on the file [name]:
    the token-size error, else the read error, else nil (end of file). *)
Definition scannerErr (name : string) (tooLong : bool) (readErr : option Errno) : option error :=
  if tooLong then Some ErrTooLong
  else match readErr with
       | Some e => Some (PathError "read" name e)
       | None => None
       end.

End Bufio.

(* ===================================================================== *)
(** * Package env *)
(* ===================================================================== *)

(** Env represents an environment loader with configurable directories. *)
Record Env : Type := mkEnv { pwd : string; configDir : string }.

(** New creates a new Env instance with specified directories. *)
Definition New (pwd configDir : string) : Env :=
  {| pwd := pwd; configDir := configDir |}.

(** getSearchDirectories returns directories to search for .env files, in
    priority order: [pwd, configDir/envdo]. *)
Definition getSearchDirectories (e : Env) : list string :=
  let dirs := [] in
  let dirs := if negb (String.eqb (pwd e) "") then (dirs ++ [pwd e])%list else dirs in
  let dirs :=
    if negb (String.eqb (configDir e) "") then
      let envdoConfigDir := Filepath.Join [configDir e; "envdo"] in
      (dirs ++ [envdoConfigDir])%list
    else dirs in
  dirs.

Definition doubleQuote : ascii := "034"%char.
Definition singleQuote : ascii := "039"%char.

(** "Remove quotes if present": the block of [loadEnvFile] that rewrites
    [value]. *)
Definition stripQuotes (value : string) : string :=
  if (2 <=? String.length value)%nat then
    match String.get 0 value, String.get (String.length value - 1)%nat value with
    | Some first, Some last =>
        if (Ascii.eqb first doubleQuote && Ascii.eqb last doubleQuote)
           || (Ascii.eqb first singleQuote && Ascii.eqb last singleQuote)
        then substring 1 (String.length value - 2)%nat value
        else value
    | _, _ => value
    end
  else value.

(** The body of the scanning loop of [loadEnvFile] up to the assignment:
    [None] stands for [continue], [Some (key, value)] for reaching
    [envs[key] = value]. *)
Definition parseLine (text : string) : option (string * string) :=
  let line := Strings.TrimSpace text in
  if String.eqb line "" || Strings.HasPrefix line "#" then None
  else
    let parts := Strings.SplitN2 line "="%char in
    match parts with
    | [part0; part1] =>
        let key := Strings.TrimSpace part0 in
        let value := Strings.TrimSpace part1 in
        let value := stripQuotes value in
        Some (key, value)
    | _ => None
    end.

(** One iteration of the scanning loop on the shared map [envs]. *)
Definition loadLine (envs : gmap string string) (text : string) : gmap string string :=
  match parseLine text with
  | Some (key, value) => <[key := value]> envs
  | None => envs
  end.

(** loadEnvFile loads environment variables from a .env file.  The map is
    updated in place in the source: the state of [envs] after the call is
    returned next to the error, also when the call fails. *)
Definition loadEnvFile (fs : OS.FS) (filename : string) (envs : gmap string string)
  : gmap string string * option error :=
  match OS.Open fs filename with
  | inl err =>
      if OS.IsNotExist err then (envs, None) else (envs, Some err)
  | inr file =>
      let '(lines, tooLong) := Bufio.scanLines (OS.data file) in
      (fold_left loadLine lines envs,
       Bufio.scannerErr filename tooLong (OS.readErr file))
  end.

(** "Determine .env filename". *)
Definition envFilename (profile : string) : string :=
  if negb (String.eqb profile "") then ".env." ++ profile else ".env".

(** [fmt.Errorf("failed to load %s: %w", envPath, err)]. *)
Definition errFailedToLoad (envPath : string) (err : error) : error :=
  wrapError ("failed to load " ++ envPath ++ ": " ++ Error err) err.

(** The loop of [LoadEnvFiles]: [rdirs] lists [dirs[len-1]], ..., [dirs[0]],
    the order in which the loop visits them.  The result is the pair the
    method returns, [None] standing for nil. *)
Fixpoint loadDirs (fs : OS.FS) (filename : string) (rdirs : list string)
    (envs : gmap string string) : option (gmap string string) * option error :=
  match rdirs with
  | [] => (Some envs, None)
  | dir :: rest =>
      let envPath := Filepath.Join [dir; filename] in
      match OS.Stat fs envPath with
      | None =>
          match loadEnvFile fs envPath envs with
          | (_, Some err) => (None, Some (errFailedToLoad envPath err))
          | (envs', None) => loadDirs fs filename rest envs'
          end
      | Some _ => loadDirs fs filename rest envs
      end
  end.

(** LoadEnvFiles loads .env files from multiple directories with priority.
    Priority: pwd > configDir/envdo. *)
Definition LoadEnvFiles (fs : OS.FS) (e : Env) (profile : string)
  : option (gmap string string) * option error :=
  let envs : gmap string string := ∅ in
  let filename := envFilename profile in
  let dirs := getSearchDirectories e in
  loadDirs fs filename (rev dirs) envs.

(* ===================================================================== *)
(** * Package env: the default directories; package cmd *)
(* ===================================================================== *)

(** What the process knows of its surroundings: the result of [os.Getwd]
    ([None] when it fails), [os.Getenv] (the empty string for a variable
    that is not set) and [os.Environ]. *)
Record Process : Type := mkProcess {
  sysGetwd : option string;
  sysGetenv : string -> string;
  sysEnviron : list string
}.

Module Default.

(** [os.UserHomeDir] on Unix: $HOME when it is set and not empty, an error
    ([None]) otherwise. *)
Definition UserHomeDir (proc : Process) : option string :=
  let v := sysGetenv proc "HOME" in
  if negb (String.eqb v "") then Some v else None.

(** LoadEnvFiles loads .env files from multiple directories with priority.
    Priority: current directory > XDG_CONFIG_HOME/envdo.  This is the
    function of the package, which uses the default directories. *)
Definition LoadEnvFiles (fs : OS.FS) (proc : Process) (profile : string)
  : option (gmap string string) * option error :=
  let pwd := match sysGetwd proc with
             | Some dir => dir
             | None => ""
             end in
  let configDir := sysGetenv proc "XDG_CONFIG_HOME" in
  let configDir :=
    if String.eqb configDir "" then
      match UserHomeDir proc with
      | Some homeDir => Filepath.Join [homeDir; ".config"]
      | None => configDir
      end
    else configDir in
  let env := New pwd configDir in
  LoadEnvFiles fs env profile.

End Default.

Module Cmd.

(** What [RunE] of the root command does, up to the moment the child
    process is started: it returns an error, or writes lines to the
    standard output and returns nil, or runs [exec.Command(name, arg...)]
    with the environment [env]. *)
Inductive Outcome : Type :=
  | ReturnError (err : error)
  | Printed (out : list string)
  | Command (name : string) (arg : list string) (env : list string).

(** [fmt.Printf("export %s=%s\n", key, value)]. *)
Definition exportLine (key value : string) : string :=
  "export " ++ key ++ "=" ++ value ++ String Bufio.newline "".

(** [fmt.Sprintf("%s=%s", key, value)]. *)
Definition envEntry (key value : string) : string :=
  key ++ "=" ++ value.

(** [RunE]; [profile] is the package variable the flag --profile sets.
    Go ranges over a map in an order it does not specify: [rangeOrder]
    gives the order met, and ranging over a nil map visits nothing. *)
Definition RunE (rangeOrder : gmap string string -> list (string * string))
    (fs : OS.FS) (proc : Process) (profile : string) (args : list string) : Outcome :=
  match Default.LoadEnvFiles fs proc profile with
  | (_, Some err) =>
      ReturnError (wrapError ("failed to load environment variables: " ++ Error err) err)
  | (envs, None) =>
      let pairs := match envs with
                   | Some m => rangeOrder m
                   | None => []
                   end in
      match args with
      | [] => Printed (map (fun kv => exportLine (fst kv) (snd kv)) pairs)
      | command :: rest =>
          let cmdEnvs :=
            (sysEnviron proc ++ map (fun kv => envEntry (fst kv) (snd kv)) pairs)%list in
          Command command rest cmdEnvs
      end
  end.

End Cmd.

(* ===================================================================== *)
(** * File systems used in the examples *)
(* ===================================================================== *)

Module Fixtures.

(** A file system holding exactly the readable regular files [files]
    (path, contents); every other path does not exist. *)
Definition lookupFile (files : list (string * string)) (name : string) : option string :=
  match find (fun f => String.eqb (fst f) name) files with
  | Some f => Some (snd f)
  | None => None
  end.

Definition fsOfFiles (files : list (string * string)) : OS.FS :=
  {| OS.sysStat := fun name =>
       match lookupFile files name with Some _ => None | None => Some ENOENT end;
     OS.sysOpen := fun name =>
       match lookupFile files name with
       | Some contents => inr (OS.mkFile contents None)
       | None => inl ENOENT
       end |}.

Definition nl : string := String Bufio.newline "".
Definition dq : string := String doubleQuote "".
Definition sq : string := String singleQuote "".

(** The table of [TestEnv_LoadEnvFiles], with /pwd and /cfg as the two
    temporary directories. *)
Definition hierarchical : OS.FS :=
  fsOfFiles [("/pwd/.env", "KEY1=pwd_value" ++ nl ++ "PWD_ONLY=pwd_key" ++ nl);
             ("/cfg/envdo/.env", "KEY1=config_value" ++ nl ++ "CONFIG_ONLY=config_key" ++ nl)].

Definition quoted : OS.FS :=
  fsOfFiles [("/pwd/.env",
              "DOUBLE_QUOTED=" ++ dq ++ "double quoted value" ++ dq ++ nl
              ++ "SINGLE_QUOTED=" ++ sq ++ "single quoted value" ++ sq ++ nl
              ++ "UNQUOTED=unquoted value" ++ nl)].

Definition commented : OS.FS :=
  fsOfFiles [("/pwd/.env",
              "# This is a comment" ++ nl ++ "KEY1=value1" ++ nl ++ nl
              ++ "# Another comment" ++ nl ++ "KEY2=value2" ++ nl)].

Definition invalidLines : OS.FS :=
  fsOfFiles [("/pwd/.env",
              "VALID_KEY=valid_value" ++ nl ++ "INVALID_LINE_NO_EQUALS" ++ nl
              ++ "KEY2=value2" ++ nl ++ "=INVALID_EMPTY_KEY" ++ nl ++ "KEY3=value3" ++ nl)].

Definition staging : OS.FS :=
  fsOfFiles [("/pwd/.env.staging", "STAGE_KEY=pwd_staging" ++ nl ++ "COMMON=pwd_common" ++ nl);
             ("/cfg/envdo/.env.staging",
              "STAGE_KEY=config_staging" ++ nl ++ "CONFIG_STAGE=config_value" ++ nl);
             ("/pwd/.env", "STAGE_KEY=default" ++ nl)].


Definition duplicated : OS.FS :=
  fsOfFiles [("/pwd/.env",
              "K=first" ++ nl ++ "OTHER=x" ++ nl ++ "K=last" ++ nl ++ "LAST=y" ++ nl)].

Definition empty : OS.FS := fsOfFiles [].

(** /cfg/envdo cannot be searched: [stat] of the file in it is refused. *)
Definition statDenied : OS.FS :=
  {| OS.sysStat := fun name =>
       if String.eqb name "/cfg/envdo/.env" then Some EACCES else Some ENOENT;
     OS.sysOpen := fun name =>
       if String.eqb name "/cfg/envdo/.env" then inl EACCES else inl ENOENT |}.

(** /pwd/.env exists and cannot be opened; /cfg/envdo/.env is fine. *)
Definition openDenied : OS.FS :=
  {| OS.sysStat := fun name =>
       if String.eqb name "/pwd/.env" || String.eqb name "/cfg/envdo/.env"
       then None else Some ENOENT;
     OS.sysOpen := fun name =>
       if String.eqb name "/pwd/.env" then inl EACCES
       else if String.eqb name "/cfg/envdo/.env" then inr (OS.mkFile ("A=1" ++ nl) None)
       else inl ENOENT |}.

(** /pwd/.env fails with an input/output error after its first line. *)
Definition readFails : OS.FS :=
  {| OS.sysStat := fun name =>
       if String.eqb name "/pwd/.env" then None else Some ENOENT;
     OS.sysOpen := fun name =>
       if String.eqb name "/pwd/.env" then inr (OS.mkFile ("A=1" ++ nl ++ "B=") (Some EIO))
       else inl ENOENT |}.

Definition env0 : Env := New "/pwd" "/cfg".

(** The line [KEY="a b"], with blanks around it. *)
Definition quotedLine : string := "  KEY = " ++ dq ++ "a b" ++ dq ++ "  ".

(** The mapping expected for [hierarchical]. *)
Definition hierarchicalEnvs : gmap string string :=
  <["KEY1" := "pwd_value"]> (<["PWD_ONLY" := "pwd_key"]>
    (<["CONFIG_ONLY" := "config_key"]> ∅)).

End Fixtures.

(* ===================================================================== *)
(** * Notions used to state the properties *)
(* ===================================================================== *)

(** The path [LoadEnvFiles] builds for the directory [dir]. *)
Definition envPathOf (filename dir : string) : string :=
  Filepath.Join [dir; filename].

(** What the env file at [envPath] defines: the mapping the loop of
    [LoadEnvFiles] obtains from it on an empty map, and nothing when
    [os.Stat] reports no usable file there. *)
Definition fileLayer (fs : OS.FS) (envPath : string) : gmap string string :=
  match OS.Stat fs envPath with
  | None => fst (loadEnvFile fs envPath ∅)
  | Some _ => ∅
  end.

(** The merge the specification compares with: a layer applied later
    yields to the keys that are already set. *)
Definition yieldMerge (acc layer : gmap string string) : gmap string string :=
  merge (fun set new => match set with Some v => Some v | None => new end) acc layer.

(** Directories applied in priority order, highest first. *)
Definition mergeInPriorityOrder (layers : list (gmap string string)) : gmap string string :=
  fold_left yieldMerge layers ∅.

(** [s] starts with a white-space rune. *)
Definition startsWithSpace (s : list ascii) : bool :=
  match s with
  | a :: t =>
      Strings.isSpace1 (Strings.code a)
      || match t with
         | b :: u =>
             Strings.isSpace2 (Strings.code a) (Strings.code b)
             || match u with
                | c :: _ => Strings.isSpace3 (Strings.code a) (Strings.code b) (Strings.code c)
                | [] => false
                end
         | [] => false
         end
  | [] => false
  end.

(** The bytes [r], held last one first, end with a white-space rune. *)
Definition endsWithSpaceRev (r : list ascii) : bool :=
  match r with
  | a :: t =>
      Strings.isSpace1 (Strings.code a)
      || match t with
         | b :: u =>
             Strings.isSpace2 (Strings.code b) (Strings.code a)
             || match u with
                | c :: _ => Strings.isSpace3 (Strings.code c) (Strings.code b) (Strings.code a)
                | [] => false
                end
         | [] => false
         end
  | [] => false
  end.

(** [value] is at least two bytes long and both its first and its last
    byte are [q]. *)
Definition quotedWith (q : ascii) (value : string) : Prop :=
  2 <= String.length value
  /\ String.get 0 value = Some q
  /\ String.get (String.length value - 1) value = Some q.

(** A byte below 0x80 that is not white space: trimming never removes it. *)
Definition plainByte (a : ascii) : Prop :=
  (Strings.code a < 128)%N /\ Strings.isSpace1 (Strings.code a) = false.

(** The byte [c] occurs in [s]. *)
Fixpoint occurs (c : ascii) (s : string) : Prop :=
  match s with
  | EmptyString => False
  | String a t => a = c \/ occurs c t
  end.


(** A path element that [filepath.Clean] leaves alone: a name that is not
    empty, not "." and not "..", and holds no separator. *)
Definition plainName (el : string) : Prop :=
  el <> "" /\ el <> "." /\ el <> ".." /\ ~ occurs Filepath.Separator el.

(** A path made of plain names separated by single separators, with or
    without a leading separator. *)
Definition plainPath (p : string) : Prop :=
  exists names,
    names <> [] /\ Forall plainName names
    /\ (p = String.concat "/" names \/ p = "/" ++ String.concat "/" names).

(** Every byte of [s] is one of the six ASCII white-space bytes. *)
Definition asciiBlank (s : string) : Prop :=
  forall c, occurs c s -> Strings.isSpace1 (Strings.code c) = true.

(** [s] starts with the byte [c]. *)
Definition startsWith (c : ascii) (s : string) : Prop :=
  exists rest, s = String c rest.

(** A key as the parser records it: trimmed, without '=' and not
    starting with '#'. *)
Definition wellFormedKey (key : string) : Prop :=
  Strings.TrimSpace key = key
  /\ ~ occurs "="%char key
  /\ ~ startsWith "#"%char key.

(** Go's map iteration: some order of the entries, each met once. *)
Definition rangesOverMaps (rangeOrder : gmap string string -> list (string * string)) : Prop :=
  forall m, rangeOrder m ≡ₚ map_to_list m.

Module Surroundings.

(** A process started in /work with XDG_CONFIG_HOME=/xdg and HOME=/home/u. *)
Definition withXdg : Process :=
  {| sysGetwd := Some "/work";
     sysGetenv := fun name =>
       if String.eqb name "XDG_CONFIG_HOME" then "/xdg"
       else if String.eqb name "HOME" then "/home/u" else "";
     sysEnviron := ["PATH=/bin"; "KEY1=inherited"] |}.

(** The same process with another home directory. *)
Definition withXdgElsewhere : Process :=
  {| sysGetwd := Some "/work";
     sysGetenv := fun name =>
       if String.eqb name "XDG_CONFIG_HOME" then "/xdg"
       else if String.eqb name "HOME" then "/elsewhere" else "";
     sysEnviron := ["PATH=/bin"; "KEY1=inherited"] |}.

(** Only HOME is set. *)
Definition withHome : Process :=
  {| sysGetwd := Some "/work";
     sysGetenv := fun name => if String.eqb name "HOME" then "/home/u" else "";
     sysEnviron := ["HOME=/home/u"] |}.

(** No working directory, no XDG_CONFIG_HOME, no HOME. *)
Definition bare : Process :=
  {| sysGetwd := None; sysGetenv := fun _ => ""; sysEnviron := [] |}.

(** A process in /pwd with XDG_CONFIG_HOME=/cfg, for the file systems of
    [Fixtures]. *)
Definition inPwd : Process :=
  {| sysGetwd := Some "/pwd";
     sysGetenv := fun name => if String.eqb name "XDG_CONFIG_HOME" then "/cfg" else "";
     sysEnviron := ["PATH=/bin"; "KEY1=inherited"] |}.

(** /work/.env and /home/u/.config/envdo/.env. *)
Definition homeFiles : OS.FS :=
  Fixtures.fsOfFiles
    [("/work/.env", "A=work" ++ Fixtures.nl);
     ("/home/u/.config/envdo/.env", "A=home" ++ Fixtures.nl ++ "B=home" ++ Fixtures.nl)].

(** A file without and with its final newline. *)
Definition unterminated : OS.FS :=
  Fixtures.fsOfFiles [("/pwd/.env", "A=1" ++ Fixtures.nl ++ "B=2")].

Definition terminated : OS.FS :=
  Fixtures.fsOfFiles [("/pwd/.env", "A=1" ++ Fixtures.nl ++ "B=2" ++ Fixtures.nl)].

End Surroundings.



(** The lines of a file, each held last byte first: what stands between
    two newlines, and what follows the last newline when it is not empty.
    [cur] holds the bytes of the line being read. *)
Fixpoint splitLines (input : string) (cur : list ascii) : list (list ascii) :=
  match input with
  | EmptyString => match cur with
                   | [] => []
                   | _ :: _ => [cur]
                   end
  | String c rest =>
      if Ascii.eqb c Bufio.newline then cur :: splitLines rest []
      else splitLines rest (c :: cur)
  end.

(** The lines of a file as strings, a final carriage return dropped. *)
Definition fileLines (contents : string) : list string :=
  map Bufio.token (splitLines contents []).

(** A line that fits the scanner's buffer with its newline. *)
Definition shortLine (line : list ascii) : bool :=
  (N.of_nat (length line) <? Bufio.MaxScanTokenSize)%N.

(** The lines that come before the first line that does not fit. *)
Fixpoint linesBeforeOversize (lines : list (list ascii)) : list (list ascii) :=
  match lines with
  | [] => []
  | line :: rest => if shortLine line then line :: linesBeforeOversize rest else []
  end.

Module Oversize.

(** A line of [MaxScanTokenSize] bytes, none of them '='. *)
Definition xs : string :=
  string_of_list_ascii (repeat "x"%char (N.to_nat Bufio.MaxScanTokenSize)).

(** /pwd/.env holds A=1, the line [xs] and B=2. *)
Definition noEquals : OS.FS :=
  Fixtures.fsOfFiles
    [("/pwd/.env", "A=1" ++ Fixtures.nl ++ xs ++ Fixtures.nl ++ "B=2" ++ Fixtures.nl)].

(** /pwd/.env holds the one line "=" followed by [xs]. *)
Definition emptyKey : OS.FS :=
  Fixtures.fsOfFiles [("/pwd/.env", "=" ++ xs ++ Fixtures.nl)].

End Oversize.

(* ===================================================================== *)
(** * The merge: one file, then the directories *)
(* ===================================================================== *)

Section Merge.

Implicit Types (envs m : gmap string string) (lines : list string).

Lemma loadLine_union envs m text :
  loadLine (envs ∪ m) text = loadLine envs text ∪ m.
Proof.
  unfold loadLine. destruct (parseLine text) as [[key value]|]; [|done].
  by rewrite insert_union_l.
Qed.

Lemma loadLines_union lines envs m :
  fold_left loadLine lines (envs ∪ m) = fold_left loadLine lines envs ∪ m.
Proof.
  revert envs. induction lines as [|text lines IH]; intros envs; simpl; [done|].
  by rewrite loadLine_union, IH.
Qed.

Lemma loadLines_from_empty lines envs :
  fold_left loadLine lines envs = fold_left loadLine lines ∅ ∪ envs.
Proof.
  rewrite <- loadLines_union. by rewrite (left_id_L ∅ (∪)).
Qed.

Lemma loadLine_dom envs text : dom envs ⊆ dom (loadLine envs text).
Proof.
  unfold loadLine. destruct (parseLine text) as [[key value]|]; [|done].
  rewrite dom_insert_L. set_solver.
Qed.

Lemma loadLines_dom lines envs : dom envs ⊆ dom (fold_left loadLine lines envs).
Proof.
  revert envs. induction lines as [|text lines IH]; intros envs; simpl; [done|].
  etrans; [apply (loadLine_dom envs text)|apply IH].
Qed.

(** The last line that sets a key decides its value. *)
Lemma loadLines_last lines envs before text after key value :
  lines = (before ++ text :: after)%list ->
  parseLine text = Some (key, value) ->
  Forall (fun later => forall v, parseLine later <> Some (key, v)) after ->
  fold_left loadLine lines envs !! key = Some value.
Proof.
  intros -> Hparse Hafter. rewrite fold_left_app. simpl.
  set (mid := fold_left loadLine before envs).
  assert (Hmid : loadLine mid text !! key = Some value).
  { unfold loadLine. rewrite Hparse. apply lookup_insert_eq. }
  revert Hmid. generalize (loadLine mid text). clear mid.
  induction Hafter as [|later after Hlater _ IH]; intros m Hm; simpl; [done|].
  apply IH. unfold loadLine.
  destruct (parseLine later) as [[k v]|] eqn:E; [|done].
  rewrite lookup_insert_ne; [done|]. intros ->. by apply (Hlater v).
Qed.

Variable fs : OS.FS.

Lemma loadEnvFile_state envPath envs :
  fst (loadEnvFile fs envPath envs) = fst (loadEnvFile fs envPath ∅) ∪ envs.
Proof.
  unfold loadEnvFile. destruct (OS.Open fs envPath) as [err|file].
  - destruct (OS.IsNotExist err); simpl; by rewrite (left_id_L ∅ (∪)).
  - destruct (Bufio.scanLines (OS.data file)) as [lines tooLong]. simpl.
    apply loadLines_from_empty.
Qed.

Lemma loadEnvFile_err envPath envs :
  snd (loadEnvFile fs envPath envs) = snd (loadEnvFile fs envPath ∅).
Proof.
  unfold loadEnvFile. destruct (OS.Open fs envPath) as [err|file].
  - by destruct (OS.IsNotExist err).
  - by destruct (Bufio.scanLines (OS.data file)) as [lines tooLong].
Qed.

Lemma loadEnvFile_dom envPath envs :
  dom envs ⊆ dom (fst (loadEnvFile fs envPath envs)).
Proof.
  unfold loadEnvFile. destruct (OS.Open fs envPath) as [err|file].
  - by destruct (OS.IsNotExist err).
  - destruct (Bufio.scanLines (OS.data file)) as [lines tooLong]. simpl.
    apply loadLines_dom.
Qed.

Variable filename : string.

(** One successful iteration of the loop puts the file's layer over the
    map. *)
Lemma loadDirs_cons dir rest envs :
  loadDirs fs filename (dir :: rest) envs =
    match OS.Stat fs (envPathOf filename dir) with
    | None =>
        match snd (loadEnvFile fs (envPathOf filename dir) ∅) with
        | Some err => (None, Some (errFailedToLoad (envPathOf filename dir) err))
        | None => loadDirs fs filename rest (fileLayer fs (envPathOf filename dir) ∪ envs)
        end
    | Some _ => loadDirs fs filename rest (fileLayer fs (envPathOf filename dir) ∪ envs)
    end.
Proof.
  cbn [loadDirs]. unfold fileLayer, envPathOf.
  destruct (OS.Stat fs (Filepath.Join [dir; filename])) as [e|] eqn:Hstat.
  - by rewrite (left_id_L ∅ (∪)).
  - rewrite <- loadEnvFile_state, <- (loadEnvFile_err _ envs).
    by destruct (loadEnvFile fs (Filepath.Join [dir; filename]) envs) as [envs' [err|]].
Qed.

(** A run of the loop that returns a mapping has laid the layers of the
    visited directories over the initial map, the last visited on top. *)
Lemma loadDirs_layers rdirs envs m :
  loadDirs fs filename rdirs envs = (Some m, None) ->
  m = fold_left (fun acc dir => fileLayer fs (envPathOf filename dir) ∪ acc) rdirs envs.
Proof.
  revert envs. induction rdirs as [|dir rest IH]; intros envs.
  - simpl. by intros [= ->].
  - rewrite loadDirs_cons. cbn [fold_left].
    destruct (OS.Stat fs (envPathOf filename dir)); [apply IH|].
    destruct (snd (loadEnvFile fs (envPathOf filename dir) ∅)); [done|apply IH].
Qed.

Lemma layers_in_visit_order (layer : string -> gmap string string) dirs :
  fold_left (fun acc dir => layer dir ∪ acc) (rev dirs) ∅
  = fold_right (fun dir acc => layer dir ∪ acc) ∅ dirs.
Proof. by rewrite <- fold_left_rev_right, rev_involutive. Qed.

Lemma yieldMerge_union acc layer : yieldMerge acc layer = acc ∪ layer.
Proof.
  apply map_eq. intros key. unfold yieldMerge.
  rewrite lookup_merge, lookup_union.
  by destruct (acc !! key), (layer !! key).
Qed.

Lemma priority_order_from (layers : list (gmap string string)) acc :
  fold_left yieldMerge layers acc = acc ∪ fold_right (∪) ∅ layers.
Proof.
  revert acc. induction layers as [|layer layers IH]; intros acc; cbn [fold_left fold_right].
  - by rewrite (right_id_L ∅ (∪)).
  - rewrite IH, (yieldMerge_union acc layer). symmetry. apply (assoc_L (∪)).
Qed.

Lemma fold_right_layers (layer : string -> gmap string string) dirs :
  fold_right (fun dir acc => layer dir ∪ acc) ∅ dirs
  = fold_right (∪) ∅ (map layer dirs).
Proof. induction dirs as [|dir dirs IH]; simpl; [done|by rewrite IH]. Qed.

End Merge.

(* ===================================================================== *)
(** * Properties of the merge *)
(* ===================================================================== *)

Lemma getSearchDirectories_length (e : Env) : length (getSearchDirectories e) <= 2.
Proof.
  unfold getSearchDirectories.
  destruct (negb (String.eqb (pwd e) "")), (negb (String.eqb (configDir e) ""));
    simpl; lia.
Qed.

Lemma LoadEnvFiles_layers (fs : OS.FS) (e : Env) (profile : string) (m : gmap string string) :
  LoadEnvFiles fs e profile = (Some m, None) ->
  m = fold_right (∪) ∅
        (map (fun dir => fileLayer fs (envPathOf (envFilename profile) dir))
             (getSearchDirectories e)).
Proof.
  unfold LoadEnvFiles. intros Hrun. apply loadDirs_layers in Hrun.
  by rewrite Hrun, layers_in_visit_order, fold_right_layers.
Qed.

(** C1.  Cross-directory precedence with additive merge: when
    [LoadEnvFiles] returns a mapping and [d1] comes before [d2] in the
    search list, a key that the env file of [d1] defines has [d1]'s value
    in the mapping, and a key that only the env file of [d2] defines has
    [d2]'s value.  The env files are arbitrary, so the order of their
    lines plays no role. *)
Theorem cross_directory_precedence
    (fs : OS.FS) (e : Env) (profile : string) (m : gmap string string)
    (i j : nat) (d1 d2 : string) :
  LoadEnvFiles fs e profile = (Some m, None) ->
  i < j ->
  getSearchDirectories e !! i = Some d1 ->
  getSearchDirectories e !! j = Some d2 ->
  forall K : string,
    (forall v1, fileLayer fs (envPathOf (envFilename profile) d1) !! K = Some v1 ->
                m !! K = Some v1)
    /\ (forall v2, fileLayer fs (envPathOf (envFilename profile) d1) !! K = None ->
                   fileLayer fs (envPathOf (envFilename profile) d2) !! K = Some v2 ->
                   m !! K = Some v2).
Proof.
  intros Hrun Hij Hd1 Hd2 K.
  apply LoadEnvFiles_layers in Hrun.
  pose proof (getSearchDirectories_length e) as Hlen.
  destruct (getSearchDirectories e) as [|a [|b [|c rest]]]; simpl in Hlen; try lia.
  - done.
  - apply lookup_lt_Some in Hd2. simpl in Hd2. lia.
  - assert (i = 0 /\ j = 1) as [-> ->].
    { apply lookup_lt_Some in Hd2. simpl in Hd2. lia. }
    simpl in Hd1, Hd2. injection Hd1 as ->. injection Hd2 as ->.
    subst m. cbn [map fold_right]. split.
    + intros v1 H1. by apply lookup_union_Some_l.
    + intros v2 H1 H2. rewrite lookup_union_r by done.
      by apply lookup_union_Some_l.
Qed.

Lemma cross_directory_precedence_witness :
  LoadEnvFiles Fixtures.hierarchical Fixtures.env0 "" = (Some Fixtures.hierarchicalEnvs, None)
  /\ Fixtures.hierarchicalEnvs !! "KEY1" = Some "pwd_value"
  /\ Fixtures.hierarchicalEnvs !! "CONFIG_ONLY" = Some "config_key".
Proof.
  assert (Hrun : LoadEnvFiles Fixtures.hierarchical Fixtures.env0 ""
                 = (Some Fixtures.hierarchicalEnvs, None)) by (vm_compute; reflexivity).
  assert (Hlt : 0 < 1) by lia.
  assert (Hd1 : getSearchDirectories Fixtures.env0 !! 0 = Some "/pwd") by reflexivity.
  assert (Hd2 : getSearchDirectories Fixtures.env0 !! 1 = Some "/cfg/envdo") by reflexivity.
  split; [exact Hrun|]. split.
  - apply (proj1 (cross_directory_precedence _ _ _ _ _ _ _ _ Hrun Hlt Hd1 Hd2 "KEY1")).
    vm_compute. reflexivity.
  - apply (proj2 (cross_directory_precedence _ _ _ _ _ _ _ _ Hrun Hlt Hd1 Hd2 "CONFIG_ONLY")).
    + vm_compute. reflexivity.
    + vm_compute. reflexivity.
Defined.

(** C3.  Merge-strategy equivalence: for every list of search
    directories, when the loop of [LoadEnvFiles] (which visits them in
    reverse priority order and lets each file overwrite) returns a
    mapping, it is the mapping obtained by applying the directories in
    priority order and letting each later layer yield to the keys that are
    already set. *)
Theorem merge_strategy_equivalence
    (fs : OS.FS) (filename : string) (dirs : list string) (m : gmap string string) :
  loadDirs fs filename (rev dirs) ∅ = (Some m, None) ->
  m = mergeInPriorityOrder (map (fun dir => fileLayer fs (envPathOf filename dir)) dirs).
Proof.
  intros Hrun. apply loadDirs_layers in Hrun.
  unfold mergeInPriorityOrder.
  rewrite priority_order_from, (left_id_L ∅ (∪)).
  by rewrite Hrun, layers_in_visit_order, fold_right_layers.
Qed.

Lemma merge_strategy_equivalence_witness :
  loadDirs Fixtures.hierarchical ".env" (rev ["/pwd"; "/cfg/envdo"]) ∅
  = (Some Fixtures.hierarchicalEnvs, None)
  /\ Fixtures.hierarchicalEnvs
     = mergeInPriorityOrder
         (map (fun dir => fileLayer Fixtures.hierarchical (envPathOf ".env" dir))
              ["/pwd"; "/cfg/envdo"]).
Proof.
  assert (Hrun : loadDirs Fixtures.hierarchical ".env" (rev ["/pwd"; "/cfg/envdo"]) ∅
                 = (Some Fixtures.hierarchicalEnvs, None)) by (vm_compute; reflexivity).
  split; [exact Hrun|].
  exact (merge_strategy_equivalence _ _ _ _ Hrun).
Defined.

(** C7.  Intra-file duplicate resolution: when the lines of a file set
    the same key several times, the map holds, after [loadEnvFile], the
    value of the last line that sets this key. *)
Theorem intra_file_last_occurrence_wins
    (fs : OS.FS) (filename : string) (envs : gmap string string) (file : OS.File)
    (lines : list string) (tooLong : bool)
    (before : list string) (text : string) (after : list string) (key value : string) :
  OS.Open fs filename = inr file ->
  Bufio.scanLines (OS.data file) = (lines, tooLong) ->
  lines = (before ++ text :: after)%list ->
  parseLine text = Some (key, value) ->
  Forall (fun later => forall v, parseLine later <> Some (key, v)) after ->
  fst (loadEnvFile fs filename envs) !! key = Some value.
Proof.
  intros Hopen Hscan Hlines Hparse Hafter.
  unfold loadEnvFile. rewrite Hopen, Hscan. simpl.
  by apply (loadLines_last lines envs before text after).
Qed.

Lemma intra_file_last_occurrence_wins_witness :
  fst (loadEnvFile Fixtures.duplicated "/pwd/.env" ∅) !! "K" = Some "last".
Proof.
  apply (intra_file_last_occurrence_wins Fixtures.duplicated "/pwd/.env" ∅
           (OS.mkFile ("K=first" ++ Fixtures.nl ++ "OTHER=x" ++ Fixtures.nl
                       ++ "K=last" ++ Fixtures.nl ++ "LAST=y" ++ Fixtures.nl) None)
           ["K=first"; "OTHER=x"; "K=last"; "LAST=y"] false
           ["K=first"; "OTHER=x"] "K=last" ["LAST=y"] "K" "last").
  - reflexivity.
  - vm_compute. reflexivity.
  - reflexivity.
  - vm_compute. reflexivity.
  - constructor; [|constructor]. intros v. vm_compute. discriminate.
Defined.

(** C10.  Merge monotonicity: [loadEnvFile] never removes a key from the
    map it is given, whatever the file and whether it fails or not; and
    the keys of the mapping that [LoadEnvFiles] returns are exactly the
    keys defined by the env files of the search directories. *)
Theorem merge_monotone (fs : OS.FS) :
  (forall (envPath : string) (envs : gmap string string),
      dom envs ⊆ dom (fst (loadEnvFile fs envPath envs)))
  /\ (forall (e : Env) (profile : string) (m : gmap string string),
         LoadEnvFiles fs e profile = (Some m, None) ->
         dom m = ⋃ (map (fun dir => dom (fileLayer fs (envPathOf (envFilename profile) dir)))
                        (getSearchDirectories e))).
Proof.
  split.
  - intros envPath envs. apply loadEnvFile_dom.
  - intros e profile m Hrun. apply LoadEnvFiles_layers in Hrun. subst m.
    induction (getSearchDirectories e) as [|dir dirs IH]; simpl.
    + by rewrite dom_empty_L.
    + by rewrite dom_union_L, IH.
Qed.

Lemma merge_monotone_witness :
  dom Fixtures.hierarchicalEnvs
  = ⋃ (map (fun dir => dom (fileLayer Fixtures.hierarchical (envPathOf (envFilename "") dir)))
           (getSearchDirectories Fixtures.env0)).
Proof.
  apply (proj2 (merge_monotone Fixtures.hierarchical) Fixtures.env0 "").
  vm_compute. reflexivity.
Defined.

(* ===================================================================== *)
(** * Facts on package strings *)
(* ===================================================================== *)

Section StringFacts.

Import Strings.

Lemma append_cons (x : ascii) (a b : string) : String x a ++ b = String x (a ++ b).
Proof. reflexivity. Qed.

Lemma append_empty_l (b : string) : "" ++ b = b.
Proof. reflexivity. Qed.

Lemma append_assoc (a b c : string) : (a ++ b) ++ c = a ++ (b ++ c).
Proof.
  induction a as [|x a IH]; [done|]. by rewrite !append_cons, IH.
Qed.

Lemma append_empty_r (a : string) : a ++ "" = a.
Proof.
  induction a as [|x a IH]; [done|]. by rewrite append_cons, IH.
Qed.

Lemma list_of_append (a b : string) :
  list_ascii_of_string (a ++ b)
  = (list_ascii_of_string a ++ list_ascii_of_string b)%list.
Proof.
  induction a as [|x a IH]; [done|]. rewrite append_cons. simpl. by rewrite IH.
Qed.

Lemma string_of_app (l k : list ascii) :
  string_of_list_ascii (l ++ k)%list
  = string_of_list_ascii l ++ string_of_list_ascii k.
Proof.
  induction l as [|x l IH]; [done|]. simpl. by rewrite append_cons, IH.
Qed.

Lemma occurs_In (c : ascii) (s : string) :
  occurs c s <-> In c (list_ascii_of_string s).
Proof.
  induction s as [|a s IH]; simpl; [done|]. rewrite IH. tauto.
Qed.

Lemma occurs_append (c : ascii) (a b : string) :
  occurs c (a ++ b) <-> occurs c a \/ occurs c b.
Proof.
  induction a as [|x a IH]; [rewrite append_empty_l; simpl; tauto|].
  rewrite append_cons. simpl. rewrite IH. tauto.
Qed.

(** ** White space *)

(** The tests are read as arithmetic facts on the byte values. *)
Ltac bytes :=
  unfold isSpace1, isSpace2, isSpace3 in *;
  rewrite ?orb_false_r in *;
  repeat match goal with
         | |- _ = false => apply not_true_is_false; intro
         | H : _ = false |- _ => apply not_true_iff_false in H
         end;
  repeat (progress rewrite ?andb_true_iff, ?orb_true_iff, ?N.eqb_eq, ?N.leb_le in * );
  lia.

(** Induction following the runes that [trimLeft] drops. *)
Lemma trimLeft_ind (P : list ascii -> Prop) :
  P [] ->
  (forall a t, isSpace1 (code a) = true -> P t -> P (a :: t)) ->
  (forall a b u, isSpace1 (code a) = false -> isSpace2 (code a) (code b) = true ->
                 P u -> P (a :: b :: u)) ->
  (forall a b c v, isSpace1 (code a) = false -> isSpace2 (code a) (code b) = false ->
                   isSpace3 (code a) (code b) (code c) = true -> P v ->
                   P (a :: b :: c :: v)) ->
  (forall s, s <> [] -> startsWithSpace s = false -> trimLeft s = s -> P s) ->
  forall s, P s.
Proof.
  intros Hnil H1 H2 H3 Hstop s.
  induction s as [s IH] using (induction_ltof1 _ (@length ascii)).
  unfold ltof in IH.
  destruct s as [|a t]; [exact Hnil|].
  destruct (isSpace1 (code a)) eqn:E1; [apply H1; [done|apply IH; simpl; lia]|].
  destruct t as [|b u]; [apply Hstop; [done|simpl; by rewrite E1..]|].
  destruct (isSpace2 (code a) (code b)) eqn:E2; [apply H2; [done..|apply IH; simpl; lia]|].
  destruct u as [|c v]; [apply Hstop; [done|simpl; by rewrite E1, E2..]|].
  destruct (isSpace3 (code a) (code b) (code c)) eqn:E3;
    [apply H3; [done..|apply IH; simpl; lia]|].
  apply Hstop; [done|simpl; by rewrite E1, E2, E3..].
Qed.

Lemma trimLeftRev_ind (P : list ascii -> Prop) :
  P [] ->
  (forall a t, isSpace1 (code a) = true -> P t -> P (a :: t)) ->
  (forall a b u, isSpace1 (code a) = false -> isSpace2 (code b) (code a) = true ->
                 P u -> P (a :: b :: u)) ->
  (forall a b c v, isSpace1 (code a) = false -> isSpace2 (code b) (code a) = false ->
                   isSpace3 (code c) (code b) (code a) = true -> P v ->
                   P (a :: b :: c :: v)) ->
  (forall r, r <> [] -> endsWithSpaceRev r = false -> trimLeftRev r = r -> P r) ->
  forall r, P r.
Proof.
  intros Hnil H1 H2 H3 Hstop r.
  induction r as [r IH] using (induction_ltof1 _ (@length ascii)).
  unfold ltof in IH.
  destruct r as [|a t]; [exact Hnil|].
  destruct (isSpace1 (code a)) eqn:E1; [apply H1; [done|apply IH; simpl; lia]|].
  destruct t as [|b u]; [apply Hstop; [done|simpl; by rewrite E1..]|].
  destruct (isSpace2 (code b) (code a)) eqn:E2; [apply H2; [done..|apply IH; simpl; lia]|].
  destruct u as [|c v]; [apply Hstop; [done|simpl; by rewrite E1, E2..]|].
  destruct (isSpace3 (code c) (code b) (code a)) eqn:E3;
    [apply H3; [done..|apply IH; simpl; lia]|].
  apply Hstop; [done|simpl; by rewrite E1, E2, E3..].
Qed.

Lemma trimLeft_stop s : startsWithSpace s = false -> trimLeft s = s.
Proof.
  destruct s as [|a [|b [|c v]]]; simpl; [done|..];
    rewrite ?orb_false_iff; intros H; destruct_and?;
    repeat match goal with E : _ = false |- _ => rewrite E; clear E end; done.
Qed.

Lemma trimLeftRev_stop r : endsWithSpaceRev r = false -> trimLeftRev r = r.
Proof.
  destruct r as [|a [|b [|c v]]]; simpl; [done|..];
    rewrite ?orb_false_iff; intros H; destruct_and?;
    repeat match goal with E : _ = false |- _ => rewrite E; clear E end; done.
Qed.

Lemma startsWithSpace_prefix p q :
  startsWithSpace (p ++ q) = false -> startsWithSpace p = false.
Proof.
  destruct p as [|a [|b [|c v]]]; simpl; [done|..];
    rewrite ?orb_false_iff; tauto.
Qed.

Lemma trimLeft_1 a t : isSpace1 (code a) = true -> trimLeft (a :: t) = trimLeft t.
Proof. intros E. simpl. by rewrite E. Qed.

Lemma trimLeft_2 a b u :
  isSpace1 (code a) = false -> isSpace2 (code a) (code b) = true ->
  trimLeft (a :: b :: u) = trimLeft u.
Proof. intros E1 E2. simpl. by rewrite E1, E2. Qed.

Lemma trimLeft_3 a b c v :
  isSpace1 (code a) = false -> isSpace2 (code a) (code b) = false ->
  isSpace3 (code a) (code b) (code c) = true ->
  trimLeft (a :: b :: c :: v) = trimLeft v.
Proof. intros E1 E2 E3. simpl. by rewrite E1, E2, E3. Qed.

Lemma trimLeftRev_1 a t : isSpace1 (code a) = true -> trimLeftRev (a :: t) = trimLeftRev t.
Proof. intros E. simpl. by rewrite E. Qed.

Lemma trimLeftRev_2 a b u :
  isSpace1 (code a) = false -> isSpace2 (code b) (code a) = true ->
  trimLeftRev (a :: b :: u) = trimLeftRev u.
Proof. intros E1 E2. simpl. by rewrite E1, E2. Qed.

Lemma trimLeftRev_3 a b c v :
  isSpace1 (code a) = false -> isSpace2 (code b) (code a) = false ->
  isSpace3 (code c) (code b) (code a) = true ->
  trimLeftRev (a :: b :: c :: v) = trimLeftRev v.
Proof. intros E1 E2 E3. simpl. by rewrite E1, E2, E3. Qed.

(** What is trimmed is a prefix, respectively a suffix. *)
Lemma trimLeft_suffix s : exists p, s = (p ++ trimLeft s)%list.
Proof.
  induction s as [|a t E [p IH]|a b u E1 E2 [p IH]|a b c v E1 E2 E3 [p IH]|s _ _ Hs]
    using trimLeft_ind.
  - by exists [].
  - exists (a :: p). rewrite trimLeft_1 by done. simpl. by rewrite <- IH.
  - exists (a :: b :: p). rewrite trimLeft_2 by done. simpl. by rewrite <- IH.
  - exists (a :: b :: c :: p). rewrite trimLeft_3 by done. simpl. by rewrite <- IH.
  - exists []. by rewrite Hs.
Qed.

Lemma trimLeftRev_suffix r : exists p, r = (p ++ trimLeftRev r)%list.
Proof.
  induction r as [|a t E [p IH]|a b u E1 E2 [p IH]|a b c v E1 E2 E3 [p IH]|r _ _ Hr]
    using trimLeftRev_ind.
  - by exists [].
  - exists (a :: p). rewrite trimLeftRev_1 by done. simpl. by rewrite <- IH.
  - exists (a :: b :: p). rewrite trimLeftRev_2 by done. simpl. by rewrite <- IH.
  - exists (a :: b :: c :: p). rewrite trimLeftRev_3 by done. simpl. by rewrite <- IH.
  - exists []. by rewrite Hr.
Qed.

Lemma trimRight_prefix s : exists q, s = (trimRight s ++ q)%list.
Proof.
  unfold trimRight. destruct (trimLeftRev_suffix (rev s)) as [p Hp].
  exists (rev p). rewrite <- rev_app_distr, <- Hp. by rewrite rev_involutive.
Qed.

Lemma TrimSpace_infix (s : string) :
  exists p q, s = p ++ TrimSpace s ++ q.
Proof.
  unfold TrimSpace.
  destruct (trimLeft_suffix (list_ascii_of_string s)) as [p Hp].
  destruct (trimRight_prefix (trimLeft (list_ascii_of_string s))) as [q Hq].
  exists (string_of_list_ascii p), (string_of_list_ascii q).
  rewrite <- !string_of_app, <- Hq, <- Hp.
  by rewrite string_of_list_ascii_of_string.
Qed.

Lemma occurs_TrimSpace (c : ascii) (s : string) :
  occurs c (TrimSpace s) -> occurs c s.
Proof.
  intros H. destruct (TrimSpace_infix s) as (p & q & Hs). rewrite Hs.
  rewrite !occurs_append. tauto.
Qed.

(** ** Trimming on both sides *)

Lemma trimLeftRev_idem r : trimLeftRev (trimLeftRev r) = trimLeftRev r.
Proof.
  induction r as [|a t E IH|a b u E1 E2 IH|a b c v E1 E2 E3 IH|r _ _ Hr]
    using trimLeftRev_ind.
  - done.
  - by rewrite trimLeftRev_1.
  - by rewrite trimLeftRev_2.
  - by rewrite trimLeftRev_3.
  - by rewrite !Hr.
Qed.

Lemma trimRight_idem s : trimRight (trimRight s) = trimRight s.
Proof. unfold trimRight. by rewrite rev_involutive, trimLeftRev_idem. Qed.

(** Bytes put before a string whose end is not trimmed away stay: here
    [re] holds, last byte first, what is put before. *)
Lemma trimLeftRev_app r re :
  trimLeftRev re = [] ->
  (forall x, isSpace1 (code x) = false -> endsWithSpaceRev (x :: re) = false) ->
  (forall x y, endsWithSpaceRev [x; y] = false -> endsWithSpaceRev (x :: y :: re) = false) ->
  trimLeftRev (r ++ re) = match trimLeftRev r with
                          | [] => []
                          | kept => (kept ++ re)%list
                          end.
Proof.
  intros Hre Hone Htwo.
  induction r as [|a t E IH|a b u E1 E2 IH|a b c v E1 E2 E3 IH|r Hne Hend Hr]
    using trimLeftRev_ind.
  - done.
  - simpl app. by rewrite !trimLeftRev_1.
  - simpl app. by rewrite !trimLeftRev_2.
  - simpl app. by rewrite !trimLeftRev_3.
  - rewrite Hr. destruct r as [|x [|y [|z w]]]; [done|..].
    + apply trimLeftRev_stop, Hone. simpl in Hend. by destruct (isSpace1 (code x)).
    + apply trimLeftRev_stop, Htwo, Hend.
    + apply trimLeftRev_stop. exact Hend.
Qed.

Lemma trimRight_app e s :
  trimLeftRev (rev e) = [] ->
  (forall x, isSpace1 (code x) = false -> endsWithSpaceRev (x :: rev e) = false) ->
  (forall x y, endsWithSpaceRev [x; y] = false -> endsWithSpaceRev (x :: y :: rev e) = false) ->
  trimRight (e ++ s) = match trimRight s with
                       | [] => []
                       | kept => (e ++ kept)%list
                       end.
Proof.
  intros Hre Hone Htwo. unfold trimRight.
  rewrite rev_app_distr, trimLeftRev_app by done.
  destruct (trimLeftRev (rev s)) as [|x kept] eqn:E; [done|].
  rewrite rev_app_distr, rev_involutive.
  destruct (rev (x :: kept)) eqn:E'; [|done].
  apply (f_equal (@length ascii)) in E'. rewrite length_rev in E'. done.
Qed.

Lemma trimRight_space1 a s :
  isSpace1 (code a) = true ->
  trimRight (a :: s) = match trimRight s with [] => [] | kept => a :: kept end.
Proof.
  intros E. apply (trimRight_app [a]).
  - simpl. by rewrite E.
  - intros x Hx. simpl. rewrite Hx. simpl.
    apply not_true_is_false. intros H. bytes.
  - intros x y Hxy. simpl in *. rewrite !orb_false_r in *.
    apply orb_false_iff in Hxy as [-> ->]. simpl.
    apply not_true_is_false. intros H. bytes.
Qed.

Lemma trimRight_space2 a b s :
  isSpace2 (code a) (code b) = true ->
  trimRight (a :: b :: s) = match trimRight s with [] => [] | kept => a :: b :: kept end.
Proof.
  intros E. apply (trimRight_app [a; b]).
  - simpl. rewrite E. replace (isSpace1 (code b)) with false; [done|].
    symmetry. bytes.
  - intros x Hx. simpl. rewrite Hx. simpl.
    apply not_true_is_false. intros H. bytes.
  - intros x y Hxy. simpl in *. rewrite !orb_false_r in *.
    apply orb_false_iff in Hxy as [-> ->]. simpl.
    apply not_true_is_false. intros H. bytes.
Qed.

Lemma trimRight_space3 a b c s :
  isSpace3 (code a) (code b) (code c) = true ->
  trimRight (a :: b :: c :: s)
  = match trimRight s with [] => [] | kept => a :: b :: c :: kept end.
Proof.
  intros E. apply (trimRight_app [a; b; c]).
  - simpl. rewrite E.
    replace (isSpace1 (code c)) with false by (symmetry; bytes).
    replace (isSpace2 (code b) (code c)) with false by (symmetry; bytes).
    done.
  - intros x Hx. simpl. rewrite Hx. simpl.
    apply not_true_is_false. intros H. bytes.
  - intros x y Hxy. simpl in *. rewrite !orb_false_r in *.
    apply orb_false_iff in Hxy as [-> ->]. simpl.
    apply not_true_is_false. intros H. bytes.
Qed.

(** Trimming the two sides can be done in either order. *)
Lemma trim_commute s : trimLeft (trimRight s) = trimRight (trimLeft s).
Proof.
  induction s as [|a t E IH|a b u E1 E2 IH|a b c v E1 E2 E3 IH|s _ Hstart Hs]
    using trimLeft_ind.
  - done.
  - rewrite trimLeft_1, <- IH, trimRight_space1 by done.
    destruct (trimRight t) eqn:Et; [done|]. by rewrite trimLeft_1.
  - rewrite trimLeft_2, <- IH, trimRight_space2 by done.
    destruct (trimRight u) eqn:Eu; [done|]. by rewrite trimLeft_2.
  - rewrite trimLeft_3, <- IH, trimRight_space3 by done.
    destruct (trimRight v) eqn:Ev; [done|]. by rewrite trimLeft_3.
  - rewrite Hs. apply trimLeft_stop.
    destruct (trimRight_prefix s) as [q Hq].
    apply (startsWithSpace_prefix _ q). by rewrite <- Hq.
Qed.

Lemma TrimSpace_trimRight (s : string) :
  TrimSpace (string_of_list_ascii (trimRight (list_ascii_of_string s))) = TrimSpace s.
Proof.
  unfold TrimSpace. rewrite list_ascii_of_string_of_list_ascii.
  by rewrite trim_commute, trimRight_idem.
Qed.

End StringFacts.

(* ===================================================================== *)
(** * The per-line parser *)
(* ===================================================================== *)

Section Parser.

Import Strings.

Lemma startsWithSpace_plain a t : plainByte a -> startsWithSpace (a :: t) = false.
Proof.
  intros [Hlt Hsp]. simpl. rewrite Hsp. simpl.
  destruct t as [|b [|c v]]; [done|..]; rewrite ?orb_false_r;
    apply not_true_is_false; intros H.
  - unfold isSpace2 in H. rewrite andb_true_iff, N.eqb_eq in H. lia.
  - apply orb_true_iff in H as [H|H].
    + unfold isSpace2 in H. rewrite andb_true_iff, N.eqb_eq in H. lia.
    + unfold isSpace3 in H.
      repeat (progress rewrite ?andb_true_iff, ?orb_true_iff, ?N.eqb_eq, ?N.leb_le in H).
      lia.
Qed.

Lemma trimLeftRev_snoc_plain r a :
  plainByte a -> trimLeftRev (r ++ [a]) = (trimLeftRev r ++ [a])%list.
Proof.
  intros [Hlt Hsp].
  induction r as [|x t E IH|x y u E1 E2 IH|x y z v E1 E2 E3 IH|r Hne Hend Hr]
    using trimLeftRev_ind.
  - simpl. by rewrite Hsp.
  - rewrite <- app_comm_cons. by rewrite !trimLeftRev_1.
  - rewrite <- !app_comm_cons. by rewrite !trimLeftRev_2.
  - rewrite <- !app_comm_cons. by rewrite !trimLeftRev_3.
  - rewrite Hr. apply trimLeftRev_stop.
    destruct r as [|x [|y [|z w]]]; [done|..]; simpl in *;
      rewrite ?orb_false_r in *.
    + rewrite Hend. simpl. apply not_true_is_false. intros H.
      unfold isSpace2 in H. rewrite andb_true_iff, N.eqb_eq in H. lia.
    + apply orb_false_iff in Hend as [-> ->]. simpl.
      apply not_true_is_false. intros H. unfold isSpace3 in H.
      repeat (progress rewrite ?andb_true_iff, ?orb_true_iff, ?N.eqb_eq, ?N.leb_le in H).
      lia.
    + exact Hend.
Qed.

Lemma TrimSpace_plain_head (a : ascii) (s : string) :
  plainByte a ->
  TrimSpace (String a s)
  = String a (string_of_list_ascii (trimRight (list_ascii_of_string s))).
Proof.
  intros Ha. unfold TrimSpace. simpl list_ascii_of_string.
  rewrite trimLeft_stop by by apply startsWithSpace_plain.
  unfold trimRight. simpl rev.
  rewrite trimLeftRev_snoc_plain, rev_app_distr by done.
  reflexivity.
Qed.

(** ** Cutting at the first separator *)

Lemma SplitN2_without (sep : ascii) (s : string) :
  ~ occurs sep s -> SplitN2 s sep = [s].
Proof.
  induction s as [|c t IH]; simpl; [done|].
  intros Hno. destruct (Ascii.eqb_spec c sep) as [->|Hne]; [tauto|].
  rewrite IH by tauto. done.
Qed.

Lemma SplitN2_with (sep : ascii) (s : string) :
  occurs sep s ->
  exists k v, s = k ++ String sep v /\ ~ occurs sep k /\ SplitN2 s sep = [k; v].
Proof.
  induction s as [|c t IH]; simpl; [done|].
  intros Hocc. destruct (Ascii.eqb_spec c sep) as [->|Hne].
  - exists "", t. simpl. tauto.
  - destruct IH as (k & v & Ht & Hk & Hsplit); [tauto|].
    exists (String c k), v. rewrite Hsplit. simpl. subst t. tauto.
Qed.

Lemma SplitN2_cut (sep : ascii) (k v : string) :
  ~ occurs sep k -> SplitN2 (k ++ String sep v) sep = [k; v].
Proof.
  induction k as [|c k IH]; intros Hno.
  - rewrite append_empty_l. simpl. by rewrite Ascii.eqb_refl.
  - rewrite append_cons. simpl in *.
    destruct (Ascii.eqb_spec c sep) as [->|Hne]; [tauto|].
    rewrite IH by tauto. done.
Qed.

(** ** Quotes *)

Lemma last_byte (s : string) :
  s <> "" ->
  exists init last,
    s = init ++ String last ""
    /\ String.get (String.length s - 1) s = Some last
    /\ substring 0 (String.length s - 1) s = init.
Proof.
  induction s as [|c t IH]; [done|]. intros _.
  destruct t as [|d u].
  - exists "", c. done.
  - destruct IH as (init & last & Ht & Hget & Hsub); [done|].
    exists (String c init), last. split; [|split].
    + rewrite append_cons. by rewrite <- Ht.
    + simpl in *. by rewrite Nat.sub_0_r in *.
    + simpl in *. rewrite Nat.sub_0_r in *. by rewrite Hsub.
Qed.

Lemma length_snoc (s : string) (c : ascii) :
  String.length (s ++ String c "") = S (String.length s).
Proof.
  induction s as [|x s IH]; [done|]. rewrite append_cons. simpl. by rewrite IH.
Qed.

Lemma get_snoc (s : string) (c : ascii) :
  String.get (String.length s) (s ++ String c "") = Some c.
Proof.
  induction s as [|x s IH]; [done|]. rewrite append_cons. simpl. exact IH.
Qed.

Lemma substring_snoc (s : string) (c : ascii) :
  substring 0 (String.length s) (s ++ String c "") = s.
Proof.
  induction s as [|x s IH]; [done|]. rewrite append_cons. simpl. by rewrite IH.
Qed.

(** The shape of a value that [quotedWith] accepts. *)
Lemma quotedWith_shape (q : ascii) (value : string) :
  quotedWith q value <-> exists inner, value = String q (inner ++ String q "").
Proof.
  split.
  - intros (Hlen & Hfirst & Hlast).
    destruct value as [|f t]; [simpl in Hlen; lia|].
    simpl in Hfirst. injection Hfirst as ->.
    destruct (last_byte t) as (init & last & Ht & Hget & _).
    { intros ->. simpl in Hlen. lia. }
    exists init. f_equal. rewrite Ht. do 2 f_equal.
    simpl in Hlast. rewrite Nat.sub_0_r in Hlast.
    destruct (String.length t) as [|n] eqn:En.
    { destruct t; [|done]. by destruct init. }
    simpl in Hget. rewrite Nat.sub_0_r in Hget. congruence.
  - intros [inner ->]. unfold quotedWith. simpl.
    rewrite length_snoc, Nat.sub_0_r. simpl.
    split; [lia|]. split; [done|]. apply get_snoc.
Qed.

Lemma stripQuotes_quoted (q : ascii) (inner : string) :
  q = doubleQuote \/ q = singleQuote ->
  stripQuotes (String q (inner ++ String q "")) = inner.
Proof.
  intros Hq. unfold stripQuotes. simpl String.length.
  rewrite length_snoc. simpl Nat.leb. cbn [String.get].
  replace (S (S (String.length inner)) - 1) with (S (String.length inner)) by lia.
  cbn [String.get]. rewrite get_snoc.
  replace (S (S (String.length inner)) - 2) with (String.length inner) by lia.
  cbn [substring]. rewrite substring_snoc.
  destruct Hq as [-> | ->]; reflexivity.
Qed.

Lemma stripQuotes_other (value : string) :
  ~ quotedWith doubleQuote value -> ~ quotedWith singleQuote value ->
  stripQuotes value = value.
Proof.
  intros Hd Hs. unfold stripQuotes.
  destruct (Nat.leb_spec 2 (String.length value)) as [Hlen|]; [|done].
  destruct (String.get 0 value) as [f|] eqn:Hfirst; [|done].
  destruct (String.get (String.length value - 1) value) as [l|] eqn:Hlast; [|done].
  destruct (Ascii.eqb f doubleQuote && Ascii.eqb l doubleQuote
            || Ascii.eqb f singleQuote && Ascii.eqb l singleQuote) eqn:E; [|done].
  exfalso.
  apply orb_true_iff in E as [E|E]; apply andb_true_iff in E as [Ef El];
    apply Ascii.eqb_eq in Ef, El; subst f l; [apply Hd|apply Hs]; by repeat split.
Qed.

End Parser.

(* ===================================================================== *)
(** * Properties of the per-file parser *)
(* ===================================================================== *)

Section ParserProperties.

Import Strings.

Lemma trimLeft_keeps (c : ascii) (s : list ascii) :
  plainByte c -> In c s -> In c (trimLeft s).
Proof.
  intros [Hlt Hsp].
  induction s as [|a t E IH|a b u E1 E2 IH|a b x v E1 E2 E3 IH|s _ _ Hs]
    using trimLeft_ind; intros Hin.
  - done.
  - rewrite trimLeft_1 by done. apply IH.
    destruct Hin as [->|]; [congruence|done].
  - rewrite trimLeft_2 by done. apply IH.
    unfold isSpace2 in E2.
    repeat (progress rewrite ?andb_true_iff, ?orb_true_iff, ?N.eqb_eq in E2).
    destruct Hin as [->|[->|]]; [lia..|done].
  - rewrite trimLeft_3 by done. apply IH.
    unfold isSpace3 in E3.
    repeat (progress rewrite ?andb_true_iff, ?orb_true_iff, ?N.eqb_eq, ?N.leb_le in E3).
    destruct Hin as [->|[->|[->|]]]; [lia..|done].
  - by rewrite Hs.
Qed.

Lemma trimLeftRev_keeps (c : ascii) (r : list ascii) :
  plainByte c -> In c r -> In c (trimLeftRev r).
Proof.
  intros [Hlt Hsp].
  induction r as [|a t E IH|a b u E1 E2 IH|a b x v E1 E2 E3 IH|r _ _ Hr]
    using trimLeftRev_ind; intros Hin.
  - done.
  - rewrite trimLeftRev_1 by done. apply IH.
    destruct Hin as [->|]; [congruence|done].
  - rewrite trimLeftRev_2 by done. apply IH.
    unfold isSpace2 in E2.
    repeat (progress rewrite ?andb_true_iff, ?orb_true_iff, ?N.eqb_eq in E2).
    destruct Hin as [->|[->|]]; [lia..|done].
  - rewrite trimLeftRev_3 by done. apply IH.
    unfold isSpace3 in E3.
    repeat (progress rewrite ?andb_true_iff, ?orb_true_iff, ?N.eqb_eq, ?N.leb_le in E3).
    destruct Hin as [->|[->|[->|]]]; [lia..|done].
  - by rewrite Hr.
Qed.

Lemma TrimSpace_keeps (c : ascii) (s : string) :
  plainByte c -> occurs c s -> occurs c (TrimSpace s).
Proof.
  intros Hc. rewrite !occurs_In. unfold TrimSpace, trimRight.
  rewrite list_ascii_of_string_of_list_ascii. intros Hin.
  rewrite <- in_rev. apply trimLeftRev_keeps; [done|].
  rewrite <- in_rev. by apply trimLeft_keeps.
Qed.

Lemma plainByte_equals : plainByte "="%char.
Proof. split; reflexivity. Qed.

Lemma HasPrefix_hash (line : string) :
  HasPrefix line "#" = true <-> exists rest, line = String "#"%char rest.
Proof.
  unfold HasPrefix. destruct line as [|c rest].
  - simpl. split; [done|]. by intros [? ?].
  - change (String.prefix "#" (String c rest))
      with (if ascii_dec "#"%char c then String.prefix "" rest else false).
    destruct (ascii_dec "#"%char c) as [<-|Hne].
    + split; [by exists rest|]. by destruct rest.
    + split; [done|]. intros [? [= ? ?]]. by subst.
Qed.

Lemma parseLine_skip (text : string) :
  TrimSpace text = "" \/ (exists rest, TrimSpace text = String "#"%char rest) ->
  parseLine text = None.
Proof.
  unfold parseLine. intros [->|H]; [done|].
  apply HasPrefix_hash in H. rewrite H. by rewrite orb_true_r.
Qed.

Lemma parseLine_without_equals (text : string) :
  ~ occurs "="%char text -> parseLine text = None.
Proof.
  intros Hno. unfold parseLine.
  destruct (String.eqb (TrimSpace text) "" || HasPrefix (TrimSpace text) "#"); [done|].
  rewrite SplitN2_without; [done|].
  intros H. by apply Hno, occurs_TrimSpace.
Qed.

Lemma parseLine_entry (text : string) :
  TrimSpace text <> "" ->
  (forall rest, TrimSpace text <> String "#"%char rest) ->
  occurs "="%char text ->
  exists k v,
    TrimSpace text = k ++ String "="%char v
    /\ ~ occurs "="%char k
    /\ parseLine text = Some (TrimSpace k, stripQuotes (TrimSpace v)).
Proof.
  intros Hne Hhash Hocc.
  destruct (SplitN2_with "="%char (TrimSpace text)) as (k & v & Hline & Hk & Hsplit).
  { by apply TrimSpace_keeps; [apply plainByte_equals|]. }
  exists k, v. split; [done|]. split; [done|].
  unfold parseLine. rewrite Hsplit.
  apply String.eqb_neq in Hne. rewrite Hne.
  destruct (HasPrefix (TrimSpace text) "#") eqn:Hp; [|done].
  apply HasPrefix_hash in Hp as [rest Hrest]. by destruct (Hhash rest).
Qed.

End ParserProperties.

(** C4.  Quote stripping: for every line that the parser turns into an
    entry, the value recorded is obtained from the trimmed value part
    as follows.  When that part is at least two bytes long and starts and
    ends with the same quote byte (double or single), it is this quote,
    the recorded value, and this quote again: exactly one quote is
    removed at each end and nothing inside changes.  When it is not, the
    recorded value is the trimmed part itself. *)
Theorem quote_stripping_rule (text key value : string) :
  parseLine text = Some (key, value) ->
  exists part0 part1,
    Strings.SplitN2 (Strings.TrimSpace text) "="%char = [part0; part1]
    /\ (forall q, q = doubleQuote \/ q = singleQuote ->
                  quotedWith q (Strings.TrimSpace part1) ->
                  Strings.TrimSpace part1 = String q (value ++ String q ""))
    /\ (~ quotedWith doubleQuote (Strings.TrimSpace part1) ->
        ~ quotedWith singleQuote (Strings.TrimSpace part1) ->
        value = Strings.TrimSpace part1).
Proof.
  unfold parseLine.
  destruct (String.eqb _ "" || _); [done|].
  destruct (Strings.SplitN2 _ _) as [|part0 [|part1 [|? ?]]]; try done.
  intros [= <- <-]. exists part0, part1. split; [done|]. split.
  - intros q Hq Hquoted. apply quotedWith_shape in Hquoted as [inner Hinner].
    rewrite Hinner at 2. by rewrite stripQuotes_quoted.
  - intros Hd Hs. by rewrite stripQuotes_other.
Qed.

Lemma quote_stripping_rule_witness :
  exists part0 part1,
    Strings.SplitN2 (Strings.TrimSpace Fixtures.quotedLine) "="%char = [part0; part1]
    /\ (forall q, q = doubleQuote \/ q = singleQuote ->
                  quotedWith q (Strings.TrimSpace part1) ->
                  Strings.TrimSpace part1 = String q ("a b" ++ String q ""))
    /\ (~ quotedWith doubleQuote (Strings.TrimSpace part1) ->
        ~ quotedWith singleQuote (Strings.TrimSpace part1) ->
        "a b" = Strings.TrimSpace part1).
Proof.
  apply (quote_stripping_rule Fixtures.quotedLine "KEY" "a b").
  vm_compute. reflexivity.
Defined.

Section ScannedLines.

Lemma splitLines_head (input : string) (cur : list ascii) :
  cur <> [] ->
  exists line rest, splitLines input cur = line :: rest /\ length cur <= length line.
Proof.
  revert cur. induction input as [|c input IH]; intros cur Hne.
  - destruct cur; [done|]. simpl. by eexists _, _.
  - simpl. destruct (Ascii.eqb c Bufio.newline).
    + by eexists _, _.
    + destruct (IH (c :: cur)) as (line & rest & -> & Hlen); [done|].
      exists line, rest. split; [done|]. simpl in Hlen. lia.
Qed.

(** What the scanner delivers: the lines of the input up to the first one
    that does not fit its buffer, and whether there is such a line. *)
Lemma scanFrom_lines (input : string) (cur : list ascii) (n : N) :
  n = N.of_nat (length cur) ->
  shortLine cur = true ->
  Bufio.scanFrom input cur n
  = (map Bufio.token (linesBeforeOversize (splitLines input cur)),
     negb (forallb shortLine (splitLines input cur))).
Proof.
  revert cur n. induction input as [|c input IH]; intros cur n Hn Hshort.
  - simpl. destruct cur as [|a cur].
    + subst n. reflexivity.
    + destruct (N.eqb_spec n 0) as [Hz|_]; [simpl in Hn; lia|].
      simpl. by rewrite Hshort.
  - simpl. destruct (Ascii.eqb c Bufio.newline).
    + rewrite (IH [] 0%N) by done. simpl. by rewrite Hshort.
    + destruct (N.leb_spec Bufio.MaxScanTokenSize (n + 1)) as [Hbig|Hsmall].
      * destruct (splitLines_head input (c :: cur)) as (line & rest & -> & Hlen);
          [done|].
        assert (Hlong : shortLine line = false).
        { unfold shortLine. apply N.ltb_ge. simpl in Hlen. lia. }
        simpl. by rewrite Hlong.
      * apply IH.
        -- simpl length. lia.
        -- unfold shortLine. apply N.ltb_lt. simpl length. lia.
Qed.

Lemma linesBeforeOversize_all (lines : list (list ascii)) :
  forallb shortLine lines = true -> linesBeforeOversize lines = lines.
Proof.
  induction lines as [|line lines IH]; simpl; [done|].
  intros H. apply andb_true_iff in H as [-> H]. by rewrite IH.
Qed.

Lemma loadEnvFile_lines (fs : OS.FS) (filename : string) (envs : gmap string string)
    (file : OS.File) :
  OS.Open fs filename = inr file ->
  loadEnvFile fs filename envs
  = (fold_left loadLine
       (map Bufio.token (linesBeforeOversize (splitLines (OS.data file) []))) envs,
     Bufio.scannerErr filename (negb (forallb shortLine (splitLines (OS.data file) [])))
       (OS.readErr file)).
Proof.
  intros Hopen. unfold loadEnvFile, Bufio.scanLines.
  by rewrite Hopen, (scanFrom_lines (OS.data file) [] 0%N).
Qed.

Lemma xs_without_equals : ~ occurs "="%char Oversize.xs.
Proof.
  unfold Oversize.xs. rewrite occurs_In, list_ascii_of_string_of_list_ascii.
  intros H. by apply repeat_spec in H.
Qed.

Lemma parseLine_empty_key (rest : string) :
  parseLine (String "="%char rest) = Some ("", stripQuotes (Strings.TrimSpace rest)).
Proof.
  unfold parseLine.
  rewrite TrimSpace_plain_head by apply plainByte_equals.
  set (kept := string_of_list_ascii (Strings.trimRight (list_ascii_of_string rest))).
  assert (Hhash : Strings.HasPrefix (String "="%char kept) "#" = false).
  { apply not_true_is_false. intros H.
    apply HasPrefix_hash in H as [? [=]]. }
  rewrite Hhash. simpl.
  unfold kept. by rewrite TrimSpace_trimRight.
Qed.

End ScannedLines.

(** C5 (amended).  Line skipping: a file whose lines are all shorter than
    65536 bytes is loaded line by line and no line makes the load fail
    (only a failing read does).  On each line: when the trimmed line is
    empty or starts with '#', the map is left as it is; when the line
    holds no '=', the map is left as it is; every other line is cut at
    its first '=' and sets exactly one entry, the trimmed key part bound
    to the trimmed and unquoted value part.  A line of 65536 bytes or
    more stops the load with [bufio.ErrTooLong], whatever it holds: the
    lines before it have been handled by these rules and the lines after
    it are not read. *)
Theorem line_skipping_rules
    (fs : OS.FS) (filename : string) (envs : gmap string string) (file : OS.File) :
  OS.Open fs filename = inr file ->
  (forallb shortLine (splitLines (OS.data file) []) = true ->
   loadEnvFile fs filename envs
   = (fold_left loadLine (fileLines (OS.data file)) envs,
      match OS.readErr file with
      | Some e => Some (PathError "read" filename e)
      | None => None
      end))
  /\ (forallb shortLine (splitLines (OS.data file) []) = false ->
      loadEnvFile fs filename envs
      = (fold_left loadLine
           (map Bufio.token (linesBeforeOversize (splitLines (OS.data file) []))) envs,
         Some ErrTooLong))
  /\ forall (text : string) (m : gmap string string),
      (Strings.TrimSpace text = ""
       \/ (exists rest, Strings.TrimSpace text = String "#"%char rest) ->
       loadLine m text = m)
      /\ (~ occurs "="%char text -> loadLine m text = m)
      /\ (Strings.TrimSpace text <> "" ->
          (forall rest, Strings.TrimSpace text <> String "#"%char rest) ->
          occurs "="%char text ->
          exists k v,
            Strings.TrimSpace text = k ++ String "="%char v
            /\ ~ occurs "="%char k
            /\ loadLine m text
               = <[Strings.TrimSpace k := stripQuotes (Strings.TrimSpace v)]> m).
Proof.
  intros Hopen. pose proof (loadEnvFile_lines fs filename envs file Hopen) as Hload.
  split; [|split].
  - intros Hshort. rewrite Hload, Hshort.
    by rewrite (linesBeforeOversize_all _ Hshort).
  - intros Hlong. by rewrite Hload, Hlong.
  - intros text m. unfold loadLine. split; [|split].
    + intros Hskip. by rewrite parseLine_skip.
    + intros Hno. by rewrite parseLine_without_equals.
    + intros Hne Hhash Hocc.
      destruct (parseLine_entry text Hne Hhash Hocc) as (k & v & Hline & Hk & Hparse).
      exists k, v. by rewrite Hparse.
Qed.

Lemma line_skipping_rules_witness :
  loadEnvFile Fixtures.invalidLines "/pwd/.env" ∅
  = (fold_left loadLine
       ["VALID_KEY=valid_value"; "INVALID_LINE_NO_EQUALS"; "KEY2=value2";
        "=INVALID_EMPTY_KEY"; "KEY3=value3"] ∅,
     None)
  /\ loadLine ∅ "INVALID_LINE_NO_EQUALS" = ∅
  /\ loadLine ∅ "# This is a comment" = ∅.
Proof.
  destruct (line_skipping_rules Fixtures.invalidLines "/pwd/.env" ∅
              (OS.mkFile ("VALID_KEY=valid_value" ++ Fixtures.nl
                          ++ "INVALID_LINE_NO_EQUALS" ++ Fixtures.nl
                          ++ "KEY2=value2" ++ Fixtures.nl
                          ++ "=INVALID_EMPTY_KEY" ++ Fixtures.nl
                          ++ "KEY3=value3" ++ Fixtures.nl) None))
    as (Hshort & _ & Hrules).
  - reflexivity.
  - split; [apply Hshort; vm_compute; reflexivity|]. split.
    + apply (proj1 (proj2 (Hrules "INVALID_LINE_NO_EQUALS" ∅))).
      simpl. intuition discriminate.
    + apply (proj1 (Hrules "# This is a comment" ∅)). right.
      exists " This is a comment". vm_compute. reflexivity.
Defined.

(** C5, as stated, fails on a line of 65536 bytes: it holds no '=' and is
    not dropped silently, the load fails; and the line B=2 that follows
    sets no entry. *)
Lemma line_skipping_rules_counterexample :
  ~ occurs "="%char Oversize.xs
  /\ loadEnvFile Oversize.noEquals "/pwd/.env" ∅ = (<["A" := "1"]> ∅, Some ErrTooLong)
  /\ LoadEnvFiles Oversize.noEquals Fixtures.env0 ""
     = (None, Some (wrapError "failed to load /pwd/.env: bufio.Scanner: token too long"
                              ErrTooLong)).
Proof.
  split; [apply xs_without_equals|]. split; vm_compute; reflexivity.
Qed.

(** C6 (amended).  Empty-key quirk: in a file whose lines are all shorter
    than 65536 bytes, a line that starts with '=' is accepted.  It is
    parsed to the empty key and to what follows the '=', trimmed and
    unquoted; [loadEnvFile] reports no error unless a read fails, the
    map it leaves holds an entry for the empty key, and the value of
    that entry is that of this line unless a later line sets the empty
    key again. *)
Theorem empty_key_quirk
    (fs : OS.FS) (filename : string) (envs : gmap string string) (file : OS.File)
    (before : list string) (rest : string) (after : list string) :
  OS.Open fs filename = inr file ->
  forallb shortLine (splitLines (OS.data file) []) = true ->
  fileLines (OS.data file) = (before ++ String "="%char rest :: after)%list ->
  parseLine (String "="%char rest) = Some ("", stripQuotes (Strings.TrimSpace rest))
  /\ (OS.readErr file = None -> snd (loadEnvFile fs filename envs) = None)
  /\ is_Some (fst (loadEnvFile fs filename envs) !! "")
  /\ (Forall (fun later => forall v, parseLine later <> Some ("", v)) after ->
      fst (loadEnvFile fs filename envs) !! ""
      = Some (stripQuotes (Strings.TrimSpace rest))).
Proof.
  intros Hopen Hshort Hlines.
  pose proof (parseLine_empty_key rest) as Hparse.
  rewrite (loadEnvFile_lines fs filename envs file Hopen).
  rewrite (linesBeforeOversize_all _ Hshort). fold (fileLines (OS.data file)).
  rewrite Hlines, Hshort. cbn [fst snd].
  split; [exact Hparse|]. split; [by intros ->|]. split.
  - apply elem_of_dom. rewrite fold_left_app. cbn [fold_left].
    apply (loadLines_dom after). unfold loadLine at 1. rewrite Hparse.
    rewrite dom_insert_L. set_solver.
  - intros Hafter.
    by apply (loadLines_last _ envs before (String "="%char rest) after).
Qed.

Lemma empty_key_quirk_witness :
  parseLine "=INVALID_EMPTY_KEY" = Some ("", stripQuotes (Strings.TrimSpace "INVALID_EMPTY_KEY"))
  /\ (OS.readErr (OS.mkFile ("VALID_KEY=valid_value" ++ Fixtures.nl
                             ++ "INVALID_LINE_NO_EQUALS" ++ Fixtures.nl
                             ++ "KEY2=value2" ++ Fixtures.nl
                             ++ "=INVALID_EMPTY_KEY" ++ Fixtures.nl
                             ++ "KEY3=value3" ++ Fixtures.nl) None) = None ->
      snd (loadEnvFile Fixtures.invalidLines "/pwd/.env" ∅) = None)
  /\ is_Some (fst (loadEnvFile Fixtures.invalidLines "/pwd/.env" ∅) !! "")
  /\ (Forall (fun later => forall v, parseLine later <> Some ("", v)) ["KEY3=value3"] ->
      fst (loadEnvFile Fixtures.invalidLines "/pwd/.env" ∅) !! ""
      = Some (stripQuotes (Strings.TrimSpace "INVALID_EMPTY_KEY"))).
Proof.
  apply (empty_key_quirk Fixtures.invalidLines "/pwd/.env" ∅
           (OS.mkFile ("VALID_KEY=valid_value" ++ Fixtures.nl
                       ++ "INVALID_LINE_NO_EQUALS" ++ Fixtures.nl
                       ++ "KEY2=value2" ++ Fixtures.nl
                       ++ "=INVALID_EMPTY_KEY" ++ Fixtures.nl
                       ++ "KEY3=value3" ++ Fixtures.nl) None)
           ["VALID_KEY=valid_value"; "INVALID_LINE_NO_EQUALS"; "KEY2=value2"]
           "INVALID_EMPTY_KEY" ["KEY3=value3"]).
  - reflexivity.
  - vm_compute. reflexivity.
  - vm_compute. reflexivity.
Defined.

(** C6, as stated, fails on a line that starts with '=' and is longer
    than the scanner's buffer: it is rejected, the load fails and the map
    gets no entry for the empty key. *)
Lemma empty_key_quirk_counterexample :
  loadEnvFile Oversize.emptyKey "/pwd/.env" ∅ = (∅, Some ErrTooLong)
  /\ (∅ : gmap string string) !! "" = None
  /\ LoadEnvFiles Oversize.emptyKey Fixtures.env0 ""
     = (None, Some (wrapError "failed to load /pwd/.env: bufio.Scanner: token too long"
                              ErrTooLong)).
Proof. repeat split; vm_compute; reflexivity. Qed.

(* ===================================================================== *)
(** * Search directories and env file names *)
(* ===================================================================== *)

Section Paths.

Import Filepath.

Lemma elements_not_nil (p : string) : elements p <> [].
Proof.
  induction p as [|c t IH]; simpl; [done|].
  destruct (elements t); [done|]. by destruct (Ascii.eqb c Separator).
Qed.

Lemma elements_name (el : string) :
  ~ occurs Separator el -> elements el = [el].
Proof.
  induction el as [|c t IH]; simpl; [done|]. intros Hno.
  rewrite IH by tauto.
  destruct (Ascii.eqb_spec c Separator) as [->|]; [tauto|done].
Qed.

Lemma elements_cut (el rest : string) :
  ~ occurs Separator el ->
  elements (el ++ String Separator rest) = el :: elements rest.
Proof.
  induction el as [|c t IH]; intros Hno.
  - rewrite append_empty_l. simpl.
    pose proof (elements_not_nil rest). by destruct (elements rest).
  - rewrite append_cons. simpl in *. rewrite IH by tauto.
    destruct (Ascii.eqb_spec c Separator) as [->|]; [tauto|done].
Qed.

Lemma elements_concat (names : list string) :
  names <> [] -> Forall (fun el => ~ occurs Separator el) names ->
  elements (String.concat "/" names) = names.
Proof.
  intros Hne Hall. induction Hall as [|el rest Hel Hrest IH]; [done|].
  destruct rest as [|el' rest].
  - simpl. by apply elements_name.
  - change (String.concat "/" (el :: el' :: rest))
      with (el ++ String Separator (String.concat "/" (el' :: rest))).
    rewrite elements_cut by done. by rewrite IH.
Qed.

Lemma concat_snoc (names : list string) (el : string) :
  names <> [] ->
  String.concat "/" (names ++ [el]) = String.concat "/" names ++ "/" ++ el.
Proof.
  intros Hne. induction names as [|x rest IH]; [done|].
  destruct rest as [|y rest]; [done|].
  change (String.concat "/" ((x :: y :: rest) ++ [el]))
    with (x ++ "/" ++ String.concat "/" ((y :: rest) ++ [el])).
  rewrite IH by done.
  change (String.concat "/" (x :: y :: rest))
    with (x ++ "/" ++ String.concat "/" (y :: rest)).
  by rewrite !append_assoc.
Qed.

Lemma cleanStep_plain (isRooted : bool) (out : list string) (el : string) :
  plainName el -> cleanStep isRooted out el = el :: out.
Proof.
  intros (H1 & H2 & H3 & _). unfold cleanStep.
  apply String.eqb_neq in H1, H2, H3. by rewrite H1, H2, H3.
Qed.

Lemma clean_plain_names (isRooted : bool) (names out : list string) :
  Forall plainName names ->
  fold_left (cleanStep isRooted) names out = (rev names ++ out)%list.
Proof.
  intros Hall. revert out.
  induction Hall as [|el rest Hel _ IH]; intros out; [done|].
  simpl. rewrite cleanStep_plain, IH by done. by rewrite <- app_assoc.
Qed.

Lemma plainName_envdo : plainName "envdo".
Proof.
  repeat split; try discriminate. simpl. unfold Separator.
  intuition discriminate.
Qed.

Lemma concat_plain_not_empty (names : list string) :
  names <> [] -> Forall plainName names -> String.concat "/" names <> "".
Proof.
  intros Hne Hall. destruct Hall as [|el rest (Hel & _) _]; [done|].
  destruct el as [|c el]; [done|]. by destruct rest.
Qed.

Lemma concat_plain_not_rooted (names : list string) :
  names <> [] -> Forall plainName names -> rooted (String.concat "/" names) = false.
Proof.
  intros Hne Hall. destruct Hall as [|el rest (Hel & _ & _ & Hsep) _]; [done|].
  destruct el as [|c el]; [done|].
  assert (Hc : Ascii.eqb c Separator = false).
  { apply Ascii.eqb_neq. intros ->. apply Hsep. by left. }
  by destruct rest.
Qed.

(** On a path of plain names [filepath.Clean] is the identity. *)
Lemma Clean_plain_relative (names : list string) :
  names <> [] -> Forall plainName names ->
  Clean (String.concat "/" names) = String.concat "/" names.
Proof.
  intros Hne Hall. unfold Clean.
  pose proof (concat_plain_not_empty names Hne Hall) as Hbody.
  rewrite (proj2 (String.eqb_neq _ _) Hbody).
  rewrite concat_plain_not_rooted by done.
  rewrite elements_concat; [|done|].
  - rewrite clean_plain_names by done.
    rewrite app_nil_r, rev_involutive.
    by rewrite (proj2 (String.eqb_neq _ _) Hbody).
  - eapply Forall_impl; [exact Hall|]. by intros el (_ & _ & _ & H).
Qed.

Lemma Clean_plain_rooted (names : list string) :
  names <> [] -> Forall plainName names ->
  Clean ("/" ++ String.concat "/" names) = "/" ++ String.concat "/" names.
Proof.
  intros Hne Hall. unfold Clean.
  change ("/" ++ String.concat "/" names)
    with ("" ++ String Separator (String.concat "/" names)).
  rewrite elements_cut by (simpl; tauto).
  rewrite elements_concat; [|done|].
  - rewrite append_empty_l. simpl.
    rewrite clean_plain_names by done.
    by rewrite app_nil_r, rev_involutive.
  - eapply Forall_impl; [exact Hall|]. by intros el (_ & _ & _ & H).
Qed.

Lemma Join_plain_envdo (p : string) :
  plainPath p -> Join [p; "envdo"] = p ++ "/envdo".
Proof.
  intros (names & Hne & Hall & Hp).
  assert (Hall' : Forall plainName (names ++ ["envdo"])).
  { apply Forall_app. split; [done|].
    constructor; [apply plainName_envdo|constructor]. }
  assert (Hne' : (names ++ ["envdo"])%list <> []) by by destruct names.
  assert (Hnonempty : String.eqb p "" = false).
  { apply String.eqb_neq. destruct Hp as [-> | ->]; [|done].
    by apply concat_plain_not_empty. }
  unfold Join. rewrite Hnonempty.
  change (String.concat "/" [p; "envdo"]) with (p ++ "/" ++ "envdo").
  change (p ++ "/envdo") with (p ++ "/" ++ "envdo").
  destruct Hp as [-> | ->].
  - rewrite <- concat_snoc by done. by apply Clean_plain_relative.
  - rewrite append_assoc, <- concat_snoc by done. by apply Clean_plain_rooted.
Qed.

End Paths.

(** C8 (amended).  [getSearchDirectories] returns the working directory
    followed by [filepath.Join(configRootDirectory, "envdo")], that is the
    cleaned form of [configRootDirectory + "/envdo"], leaving out the first
    when the working directory is empty and the second when the
    configuration root is; the cleaned form is
    [configRootDirectory + "/envdo"] itself when the configuration root
    is made of plain names separated by single slashes. *)
Theorem search_directories (workingDirectory configRootDirectory : string) :
  getSearchDirectories (New workingDirectory configRootDirectory)
  = ((if String.eqb workingDirectory "" then [] else [workingDirectory])
     ++ (if String.eqb configRootDirectory "" then []
         else [Filepath.Clean (configRootDirectory ++ "/envdo")]))%list
  /\ (plainPath configRootDirectory ->
      Filepath.Clean (configRootDirectory ++ "/envdo") = configRootDirectory ++ "/envdo").
Proof.
  split.
  - unfold getSearchDirectories, New, Filepath.Join. cbn [pwd configDir].
    destruct (String.eqb workingDirectory ""), (String.eqb configRootDirectory "");
      reflexivity.
  - intros Hplain. rewrite <- (Join_plain_envdo _ Hplain) at 2.
    unfold Filepath.Join.
    destruct (String.eqb configRootDirectory "") eqn:E; [|reflexivity].
    apply String.eqb_eq in E. subst.
    destruct Hplain as (names & Hne & Hall & [Hp | Hp]); [|done].
    symmetry in Hp. by apply concat_plain_not_empty in Hp.
Qed.

Lemma search_directories_witness :
  Filepath.Clean ("/cfg" ++ "/envdo") = "/cfg" ++ "/envdo".
Proof.
  apply (proj2 (search_directories "/pwd" "/cfg")).
  exists ["cfg"]. split; [discriminate|]. split; [|by right].
  constructor; [|constructor].
  repeat split; try discriminate. simpl. unfold Filepath.Separator.
  intuition discriminate.
Defined.

(** C8, as stated, fails when the configuration root ends with a slash:
    the second directory is the cleaned path, not the concatenation. *)
Lemma search_directories_counterexample :
  getSearchDirectories (New "/pwd" "/cfg/") = ["/pwd"; "/cfg/envdo"]
  /\ getSearchDirectories (New "/pwd" "/cfg/") <> ["/pwd"; "/cfg/" ++ "/envdo"].
Proof. split; [reflexivity|]. vm_compute. discriminate. Qed.

Section Lookup.

Variables fs fs' : OS.FS.
Variable filename : string.



End Lookup.



(* ===================================================================== *)
(** * Errors *)
(* ===================================================================== *)

Section Failures.

Variable fs : OS.FS.
Variable filename : string.

(** When [loadEnvFile] fails: the file cannot be opened for another
    reason than its absence, a line does not fit the scanner's buffer, or
    a read fails. *)
Lemma loadEnvFile_failure (envPath : string) (envs : gmap string string) (err : error) :
  snd (loadEnvFile fs envPath envs) = Some err <->
  (exists e, OS.sysOpen fs envPath = inl e /\ e <> ENOENT
             /\ err = PathError "open" envPath e)
  \/ (exists file, OS.sysOpen fs envPath = inr file
        /\ ((snd (Bufio.scanLines (OS.data file)) = true /\ err = ErrTooLong)
            \/ (snd (Bufio.scanLines (OS.data file)) = false
                /\ exists e, OS.readErr file = Some e
                             /\ err = PathError "read" envPath e))).
Proof.
  unfold loadEnvFile, OS.Open.
  destruct (OS.sysOpen fs envPath) as [e|file].
  - split.
    + intros H. left. exists e.
      destruct e; simpl in H; try discriminate; injection H as <-; by repeat split.
    + intros [(e' & [= <-] & Hne & ->)|(f & [=] & _)].
      destruct e; simpl; congruence.
  - destruct (Bufio.scanLines (OS.data file)) as [lines tooLong] eqn:Hscan.
    unfold Bufio.scannerErr. simpl. split.
    + intros H. right. exists file. split; [done|]. rewrite Hscan. simpl.
      destruct tooLong.
      * left. by injection H as <-.
      * right. split; [done|].
        destruct (OS.readErr file) as [e|]; [|done]. exists e. by injection H as <-.
    + intros [(e & [=] & _)|(f & [= <-] & Hcase)].
      rewrite Hscan in Hcase. simpl in Hcase.
      destruct Hcase as [[-> ->]|[-> (e & -> & ->)]]; done.
Qed.

(** The two outcomes of the loop: a mapping and no error, or no mapping
    and the error of the first file that fails, next to its path. *)
Lemma loadDirs_outcome (rdirs : list string) (envs : gmap string string) :
  (exists m, loadDirs fs filename rdirs envs = (Some m, None))
  \/ (exists dir err,
        In dir rdirs
        /\ OS.Stat fs (envPathOf filename dir) = None
        /\ snd (loadEnvFile fs (envPathOf filename dir) ∅) = Some err
        /\ loadDirs fs filename rdirs envs
           = (None, Some (errFailedToLoad (envPathOf filename dir) err))).
Proof.
  revert envs. induction rdirs as [|dir rest IH]; intros envs.
  - left. by exists envs.
  - rewrite loadDirs_cons.
    assert (Hrest : forall m,
      (exists m', loadDirs fs filename rest m = (Some m', None))
      \/ (exists d err,
            In d (dir :: rest)
            /\ OS.Stat fs (envPathOf filename d) = None
            /\ snd (loadEnvFile fs (envPathOf filename d) ∅) = Some err
            /\ loadDirs fs filename rest m
               = (None, Some (errFailedToLoad (envPathOf filename d) err)))).
    { intros m. destruct (IH m) as [?|(d & err & Hd & ?)]; [by left|].
      right. exists d, err. split; [by right|done]. }
    destruct (OS.Stat fs (envPathOf filename dir)) eqn:Hstat; [apply Hrest|].
    destruct (snd (loadEnvFile fs (envPathOf filename dir) ∅)) as [err|] eqn:Herr;
      [|apply Hrest].
    right. exists dir, err. split; [by left|done].
Qed.


(** A file that is found and fails to load makes the whole call fail. *)
Lemma loadDirs_aborts (rdirs : list string) (envs : gmap string string)
    (dir : string) (err : error) :
  In dir rdirs ->
  OS.Stat fs (envPathOf filename dir) = None ->
  snd (loadEnvFile fs (envPathOf filename dir) ∅) = Some err ->
  exists d e,
    In d rdirs
    /\ snd (loadEnvFile fs (envPathOf filename d) ∅) = Some e
    /\ loadDirs fs filename rdirs envs
       = (None, Some (errFailedToLoad (envPathOf filename d) e)).
Proof.
  intros Hin Hstat Herr.
  destruct (loadDirs_outcome rdirs envs) as [[m Hm]|(d & e & Hd & _ & He & Hrun)].
  - exfalso. revert envs Hm.
    induction rdirs as [|x rest IH]; intros envs; [done|].
    rewrite loadDirs_cons. destruct Hin as [->|Hin].
    + by rewrite Hstat, Herr.
    + destruct (OS.Stat fs (envPathOf filename x)); [by apply IH|].
      destruct (snd (loadEnvFile fs (envPathOf filename x) ∅)); [done|by apply IH].
  - by exists d, e.
Qed.

End Failures.

Section ErrorSemantics.

Variable fs : OS.FS.
Variable filename : string.



End ErrorSemantics.



(** The guard on [os.Stat] asks for success: a file that [os.Stat] cannot
    reach, here for lack of permission on its directory, is skipped like
    a missing one. *)
Example stat_refusal_is_skipped :
  OS.Stat Fixtures.statDenied (envPathOf (envFilename "") "/cfg/envdo")
  = Some (PathError "stat" "/cfg/envdo/.env" EACCES)
  /\ LoadEnvFiles Fixtures.statDenied Fixtures.env0 "" = (Some ∅, None).
Proof. split; vm_compute; reflexivity. Qed.

(** A refusal met by [os.Open] makes the call fail. *)
Example open_failure_aborts :
  LoadEnvFiles Fixtures.openDenied Fixtures.env0 ""
  = (None, Some (wrapError "failed to load /pwd/.env: open /pwd/.env: permission denied"
                           (PathError "open" "/pwd/.env" EACCES))).
Proof. vm_compute. reflexivity. Qed.

Example read_failure_aborts :
  LoadEnvFiles Fixtures.readFails Fixtures.env0 ""
  = (None, Some (wrapError "failed to load /pwd/.env: read /pwd/.env: input/output error"
                           (PathError "read" "/pwd/.env" EIO))).
Proof. vm_compute. reflexivity. Qed.

Example missing_files_are_skipped :
  LoadEnvFiles Fixtures.empty Fixtures.env0 "nonexistent" = (Some ∅, None).
Proof. vm_compute. reflexivity. Qed.

(* ===================================================================== *)
(** * The cases of the test suite and of the library documentation *)
(* ===================================================================== *)

Example test_hierarchical_search :
  LoadEnvFiles Fixtures.hierarchical Fixtures.env0 ""
  = (Some Fixtures.hierarchicalEnvs, None).
Proof. vm_compute. reflexivity. Qed.

Example test_quoted_values :
  LoadEnvFiles Fixtures.quoted Fixtures.env0 ""
  = (Some (<["DOUBLE_QUOTED" := "double quoted value"]>
             (<["SINGLE_QUOTED" := "single quoted value"]>
                (<["UNQUOTED" := "unquoted value"]> ∅))), None).
Proof. vm_compute. reflexivity. Qed.

Example test_comments_and_empty_lines :
  LoadEnvFiles Fixtures.commented Fixtures.env0 ""
  = (Some (<["KEY1" := "value1"]> (<["KEY2" := "value2"]> ∅)), None).
Proof. vm_compute. reflexivity. Qed.

Example test_invalid_lines :
  LoadEnvFiles Fixtures.invalidLines Fixtures.env0 ""
  = (Some (<["VALID_KEY" := "valid_value"]>
             (<["KEY2" := "value2"]>
                (<["KEY3" := "value3"]> (<["" := "INVALID_EMPTY_KEY"]> ∅)))), None).
Proof. vm_compute. reflexivity. Qed.

Example test_profile_with_hierarchy :
  LoadEnvFiles Fixtures.staging Fixtures.env0 "staging"
  = (Some (<["STAGE_KEY" := "pwd_staging"]>
             (<["COMMON" := "pwd_common"]>
                (<["CONFIG_STAGE" := "config_value"]> ∅))), None).
Proof. vm_compute. reflexivity. Qed.

Example test_default_profile_reads_dot_env :
  LoadEnvFiles Fixtures.staging Fixtures.env0 ""
  = (Some (<["STAGE_KEY" := "default"]> ∅), None).
Proof. vm_compute. reflexivity. Qed.

(** The profile is not sanitised: it can lead out of the search directory. *)
Example profile_path_traversal :
  envPathOf (envFilename "/../../etc/passwd") "/pwd" = "/etc/passwd".
Proof. reflexivity. Qed.

(** Quotes are removed in matching pairs only, and nothing is unescaped. *)
Example quote_examples :
  map parseLine
      ["K=" ++ Fixtures.dq;
       "K=" ++ Fixtures.dq ++ Fixtures.dq;
       "K=" ++ Fixtures.dq ++ "a" ++ Fixtures.sq;
       "K=" ++ Fixtures.sq ++ "a b" ++ Fixtures.sq;
       "K=" ++ Fixtures.dq ++ "a" ++ Fixtures.dq ++ "b" ++ Fixtures.dq;
       "K=e f"]
  = [Some ("K", Fixtures.dq);
     Some ("K", "");
     Some ("K", Fixtures.dq ++ "a" ++ Fixtures.sq);
     Some ("K", "a b");
     Some ("K", "a" ++ Fixtures.dq ++ "b");
     Some ("K", "e f")].
Proof. reflexivity. Qed.

Example clean_examples :
  map Filepath.Clean
      ["abc//def//ghi"; "abc/def/../ghi/../jkl"; "/../abc"; "../../abc";
       "abc/./../def"; "abc/../../././../def"; ""; "/"; "abc/"; "/abc/def/../../.."]
  = ["abc/def/ghi"; "abc/jkl"; "/abc"; "../../abc";
     "def"; "../../def"; "."; "/"; "abc"; "/"].
Proof. reflexivity. Qed.

Example scan_lines_example :
  Bufio.scanLines ("a" ++ String Bufio.carriageReturn Fixtures.nl ++ Fixtures.nl ++ "b")
  = (["a"; ""; "b"], false).
Proof. reflexivity. Qed.

(** A line of [MaxScanTokenSize] bytes stops the scanner; one byte less
    is delivered. *)
Example scanner_token_too_long :
  Bufio.scanLines
    ("A=1" ++ Fixtures.nl
     ++ string_of_list_ascii (repeat "x"%char (N.to_nat Bufio.MaxScanTokenSize)))
  = (["A=1"], true).
Proof. vm_compute. reflexivity. Qed.

Example trim_space_unicode :
  Strings.TrimSpace
    (String "194" (String "160" (" a b" ++ String "226" (String "128" (String "131" "")))))
  = "a b".
Proof. reflexivity. Qed.

(* ===================================================================== *)
(** * More on trimming *)
(* ===================================================================== *)

Section TrimmingMore.

Import Strings.

Lemma trimLeft_idem s : trimLeft (trimLeft s) = trimLeft s.
Proof.
  induction s as [|a t E IH|a b u E1 E2 IH|a b c v E1 E2 E3 IH|s _ _ Hs]
    using trimLeft_ind.
  - done.
  - by rewrite trimLeft_1.
  - by rewrite trimLeft_2.
  - by rewrite trimLeft_3.
  - by rewrite !Hs.
Qed.

Lemma TrimSpace_idem (s : string) : TrimSpace (TrimSpace s) = TrimSpace s.
Proof.
  unfold TrimSpace. rewrite list_ascii_of_string_of_list_ascii.
  by rewrite <- trim_commute, trimRight_idem, trim_commute, trimLeft_idem.
Qed.

Lemma trimLeft_length s : length (trimLeft s) <= length s.
Proof.
  destruct (trimLeft_suffix s) as [p Hp].
  rewrite Hp at 2. rewrite length_app. lia.
Qed.

Lemma trimRight_length s : length (trimRight s) <= length s.
Proof.
  destruct (trimRight_prefix s) as [q Hq].
  rewrite Hq at 2. rewrite length_app. lia.
Qed.

(** A string that [trimLeft] leaves alone does not start with white space. *)
Lemma trimLeft_fixed s : trimLeft s = s -> startsWithSpace s = false.
Proof.
  induction s as [|a t E _|a b u E1 E2 _|a b c v E1 E2 E3 _|s _ Hstart _]
    using trimLeft_ind; intros Hfix; [done| | | |done]; exfalso.
  - rewrite trimLeft_1 in Hfix by done.
    pose proof (trimLeft_length t) as Hlen. rewrite Hfix in Hlen. simpl in Hlen. lia.
  - rewrite trimLeft_2 in Hfix by done.
    pose proof (trimLeft_length u) as Hlen. rewrite Hfix in Hlen. simpl in Hlen. lia.
  - rewrite trimLeft_3 in Hfix by done.
    pose proof (trimLeft_length v) as Hlen. rewrite Hfix in Hlen. simpl in Hlen. lia.
Qed.

Lemma trimLeftRev_length r : length (trimLeftRev r) <= length r.
Proof.
  destruct (trimLeftRev_suffix r) as [p Hp].
  rewrite Hp at 2. rewrite length_app. lia.
Qed.

Lemma trimLeftRev_fixed r : trimLeftRev r = r -> endsWithSpaceRev r = false.
Proof.
  induction r as [|a t E _|a b u E1 E2 _|a b c v E1 E2 E3 _|r _ Hend _]
    using trimLeftRev_ind; intros Hfix; [done| | | |done]; exfalso.
  - rewrite trimLeftRev_1 in Hfix by done.
    pose proof (trimLeftRev_length t) as Hlen. rewrite Hfix in Hlen. simpl in Hlen. lia.
  - rewrite trimLeftRev_2 in Hfix by done.
    pose proof (trimLeftRev_length u) as Hlen. rewrite Hfix in Hlen. simpl in Hlen. lia.
  - rewrite trimLeftRev_3 in Hfix by done.
    pose proof (trimLeftRev_length v) as Hlen. rewrite Hfix in Hlen. simpl in Hlen. lia.
Qed.

(** A trimmed string is trimmed on each side. *)
Lemma TrimSpace_fixed (s : string) :
  TrimSpace s = s ->
  trimLeft (list_ascii_of_string s) = list_ascii_of_string s
  /\ trimRight (list_ascii_of_string s) = list_ascii_of_string s.
Proof.
  unfold TrimSpace. intros Hfix.
  apply (f_equal list_ascii_of_string) in Hfix.
  rewrite list_ascii_of_string_of_list_ascii in Hfix.
  set (l := list_ascii_of_string s) in *.
  destruct (trimLeft_suffix l) as [p Hp].
  destruct (trimRight_prefix (trimLeft l)) as [q Hq].
  assert (Hlen : length p = 0 /\ length q = 0).
  { pose proof (f_equal (@length ascii) Hp) as H1.
    pose proof (f_equal (@length ascii) Hq) as H2.
    rewrite length_app in H1, H2. rewrite Hfix in H2. lia. }
  destruct Hlen as [Hp0 Hq0].
  destruct p; [|done]. simpl in Hp.
  split; [done|]. by rewrite <- Hp in Hfix.
Qed.

Lemma TrimSpace_fixed_iff (s : string) :
  TrimSpace s = s <->
  startsWithSpace (list_ascii_of_string s) = false
  /\ endsWithSpaceRev (rev (list_ascii_of_string s)) = false.
Proof.
  split.
  - intros Hfix. apply TrimSpace_fixed in Hfix as [Hl Hr]. split.
    + by apply trimLeft_fixed.
    + apply trimLeftRev_fixed. unfold trimRight in Hr.
      apply (f_equal (@rev ascii)) in Hr. by rewrite rev_involutive in Hr.
  - intros [Hl Hr]. unfold TrimSpace, trimRight.
    rewrite (trimLeft_stop _ Hl), (trimLeftRev_stop _ Hr), rev_involutive.
    apply string_of_list_ascii_of_string.
Qed.

(** A byte below 0x80 after a string that does not start with white
    space does not make it start with white space. *)
Lemma startsWithSpace_before_ascii s a rest :
  s <> [] -> startsWithSpace s = false -> (code a < 128)%N ->
  startsWithSpace (s ++ a :: rest) = false.
Proof.
  intros Hne Hs Ha.
  destruct s as [|x [|y [|z w]]]; [done|..]; simpl in *;
    rewrite ?orb_false_r in *.
  - rewrite Hs. simpl. apply not_true_is_false. intros H.
    destruct rest as [|b rest]; rewrite ?orb_false_r in H.
    + unfold isSpace2 in H.
      repeat (progress rewrite ?andb_true_iff, ?orb_true_iff, ?N.eqb_eq in H). lia.
    + apply orb_true_iff in H as [H|H].
      * unfold isSpace2 in H.
        repeat (progress rewrite ?andb_true_iff, ?orb_true_iff, ?N.eqb_eq in H). lia.
      * unfold isSpace3 in H.
        repeat (progress rewrite ?andb_true_iff, ?orb_true_iff, ?N.eqb_eq, ?N.leb_le in H).
        lia.
  - apply orb_false_iff in Hs as [-> ->]. simpl.
    apply not_true_is_false. intros H. unfold isSpace3 in H.
    repeat (progress rewrite ?andb_true_iff, ?orb_true_iff, ?N.eqb_eq, ?N.leb_le in H).
    lia.
  - exact Hs.
Qed.

Lemma endsWithSpaceRev_before_ascii r a rest :
  r <> [] -> endsWithSpaceRev r = false -> (code a < 128)%N ->
  endsWithSpaceRev (r ++ a :: rest) = false.
Proof.
  intros Hne Hr Ha.
  destruct r as [|x [|y [|z w]]]; [done|..]; simpl in *;
    rewrite ?orb_false_r in *.
  - rewrite Hr. simpl. apply not_true_is_false. intros H.
    destruct rest as [|b rest]; rewrite ?orb_false_r in H.
    + unfold isSpace2 in H.
      repeat (progress rewrite ?andb_true_iff, ?orb_true_iff, ?N.eqb_eq in H). lia.
    + apply orb_true_iff in H as [H|H].
      * unfold isSpace2 in H.
        repeat (progress rewrite ?andb_true_iff, ?orb_true_iff, ?N.eqb_eq in H). lia.
      * unfold isSpace3 in H.
        repeat (progress rewrite ?andb_true_iff, ?orb_true_iff, ?N.eqb_eq, ?N.leb_le in H).
        lia.
  - apply orb_false_iff in Hr as [-> ->]. simpl.
    apply not_true_is_false. intros H. unfold isSpace3 in H.
    repeat (progress rewrite ?andb_true_iff, ?orb_true_iff, ?N.eqb_eq, ?N.leb_le in H).
    lia.
  - exact Hr.
Qed.

Lemma endsWithSpaceRev_plain a t : plainByte a -> endsWithSpaceRev (a :: t) = false.
Proof.
  intros [Hlt Hsp]. simpl. rewrite Hsp. simpl.
  destruct t as [|b [|c v]]; [done|..]; rewrite ?orb_false_r;
    apply not_true_is_false; intros H.
  - unfold isSpace2 in H.
    repeat (progress rewrite ?andb_true_iff, ?orb_true_iff, ?N.eqb_eq in H). lia.
  - apply orb_true_iff in H as [H|H].
    + unfold isSpace2 in H.
      repeat (progress rewrite ?andb_true_iff, ?orb_true_iff, ?N.eqb_eq in H). lia.
    + unfold isSpace3 in H.
      repeat (progress rewrite ?andb_true_iff, ?orb_true_iff, ?N.eqb_eq, ?N.leb_le in H).
      lia.
Qed.

(** ASCII white space put around a string is trimmed away. *)
Lemma trimLeft_blank ws s :
  Forall (fun c => isSpace1 (code c) = true) ws -> trimLeft (ws ++ s) = trimLeft s.
Proof.
  induction 1 as [|c ws Hc _ IH]; [done|].
  rewrite <- app_comm_cons. by rewrite trimLeft_1.
Qed.

Lemma trimLeftRev_blank ws r :
  Forall (fun c => isSpace1 (code c) = true) ws -> trimLeftRev (ws ++ r) = trimLeftRev r.
Proof.
  induction 1 as [|c ws Hc _ IH]; [done|].
  rewrite <- app_comm_cons. by rewrite trimLeftRev_1.
Qed.

Lemma asciiBlank_Forall (ws : string) :
  asciiBlank ws -> Forall (fun c => isSpace1 (code c) = true) (list_ascii_of_string ws).
Proof.
  intros Hws. apply List.Forall_forall. intros c Hc. apply Hws. by apply occurs_In.
Qed.

Lemma TrimSpace_padded (before text after : string) :
  asciiBlank before -> asciiBlank after ->
  TrimSpace (before ++ text ++ after) = TrimSpace text.
Proof.
  intros Hb Ha. unfold TrimSpace. f_equal.
  rewrite !list_of_append.
  rewrite trimLeft_blank by by apply asciiBlank_Forall.
  rewrite <- !trim_commute. f_equal.
  unfold trimRight. rewrite rev_app_distr.
  rewrite trimLeftRev_blank; [done|].
  apply Forall_rev. by apply asciiBlank_Forall.
Qed.

End TrimmingMore.

(* ===================================================================== *)
(** * More on the per-line parser *)
(* ===================================================================== *)

Section ParserMore.

Import Strings.

Lemma SplitN2_two (sep : ascii) (s k v : string) :
  SplitN2 s sep = [k; v] -> s = k ++ String sep v /\ ~ occurs sep k.
Proof.
  revert k. induction s as [|c t IH]; intros k; simpl; [done|].
  destruct (Ascii.eqb_spec c sep) as [->|Hne].
  - intros [= <- <-]. rewrite append_empty_l. simpl. tauto.
  - destruct (SplitN2 t sep) as [|k0 [|v0 [|? ?]]]; try done.
    intros [= <- <-]. destruct (IH k0 eq_refl) as [-> Hk].
    rewrite append_cons. simpl. tauto.
Qed.

Lemma trimRight_of_trimmed_left (l : list ascii) :
  startsWithSpace l = false ->
  exists q, l = (trimRight (trimLeft l) ++ q)%list.
Proof.
  intros Hl. rewrite (trimLeft_stop _ Hl). apply trimRight_prefix.
Qed.

Lemma parseLine_key (text key value : string) :
  parseLine text = Some (key, value) -> wellFormedKey key.
Proof.
  unfold parseLine.
  destruct (String.eqb _ "" || HasPrefix _ "#") eqn:Hguard; [done|].
  apply orb_false_iff in Hguard as [_ Hhash].
  destruct (SplitN2 _ _) as [|part0 [|part1 [|? ?]]] eqn:Hsplit; try done.
  intros [= <- <-].
  apply SplitN2_two in Hsplit as [Hline Hno].
  split; [apply TrimSpace_idem|]. split.
  - intros Hocc. by apply Hno, occurs_TrimSpace.
  - intros [rest Hkey].
    assert (Hstart : startsWithSpace (list_ascii_of_string part0) = false).
    { pose proof (TrimSpace_idem text) as Hfix.
      apply TrimSpace_fixed_iff in Hfix as [Hfix _].
      rewrite Hline, list_of_append in Hfix.
      by apply startsWithSpace_prefix in Hfix. }
    destruct (trimRight_of_trimmed_left _ Hstart) as [q Hq].
    apply (f_equal string_of_list_ascii) in Hq.
    rewrite string_of_list_ascii_of_string, string_of_app in Hq.
    fold (TrimSpace part0) in Hq. rewrite Hkey, append_cons in Hq.
    rewrite Hline, Hq, append_cons in Hhash.
    assert (Htrue : HasPrefix
              (String "#" ((rest ++ string_of_list_ascii q) ++ String "=" part1)) "#"
            = true) by (apply HasPrefix_hash; eauto).
    congruence.
Qed.

Lemma loadLine_keys (envs : gmap string string) (text : string) :
  (forall key, is_Some (envs !! key) -> wellFormedKey key) ->
  forall key, is_Some (loadLine envs text !! key) -> wellFormedKey key.
Proof.
  intros Henvs key. unfold loadLine.
  destruct (parseLine text) as [[k v]|] eqn:Hparse; [|apply Henvs].
  destruct (decide (k = key)) as [->|Hne].
  - intros _. by apply (parseLine_key text key v).
  - rewrite lookup_insert_ne by done. apply Henvs.
Qed.

Lemma loadLines_keys (lines : list string) (envs : gmap string string) :
  (forall key, is_Some (envs !! key) -> wellFormedKey key) ->
  forall key, is_Some (fold_left loadLine lines envs !! key) -> wellFormedKey key.
Proof.
  revert envs. induction lines as [|text lines IH]; intros envs Henvs; [done|].
  simpl. apply IH. by apply loadLine_keys.
Qed.

Lemma loadEnvFile_keys (fs : OS.FS) (envPath : string) (envs : gmap string string) :
  (forall key, is_Some (envs !! key) -> wellFormedKey key) ->
  forall key, is_Some (fst (loadEnvFile fs envPath envs) !! key) -> wellFormedKey key.
Proof.
  intros Henvs. unfold loadEnvFile.
  destruct (OS.Open fs envPath) as [err|file].
  - by destruct (OS.IsNotExist err).
  - destruct (Bufio.scanLines (OS.data file)) as [lines tooLong]. simpl.
    by apply loadLines_keys.
Qed.

Lemma loadDirs_keys (fs : OS.FS) (filename : string) (rdirs : list string)
    (envs m : gmap string string) :
  loadDirs fs filename rdirs envs = (Some m, None) ->
  (forall key, is_Some (envs !! key) -> wellFormedKey key) ->
  forall key, is_Some (m !! key) -> wellFormedKey key.
Proof.
  revert envs. induction rdirs as [|dir rest IH]; intros envs.
  - simpl. by intros [= ->].
  - cbn [loadDirs].
    destruct (OS.Stat fs (Filepath.Join [dir; filename])); [apply IH|].
    pose proof (loadEnvFile_keys fs (Filepath.Join [dir; filename]) envs) as Hkeys.
    destruct (loadEnvFile fs (Filepath.Join [dir; filename]) envs) as [envs' [err|]];
      [done|].
    intros Hrun Henvs. apply (IH envs' Hrun). by apply Hkeys.
Qed.

Lemma plainByte_e : plainByte "e"%char.
Proof. split; reflexivity. Qed.

Lemma trimmed_entry (key value : string) :
  TrimSpace key = key -> TrimSpace value = value ->
  TrimSpace (key ++ String "=" value) = key ++ String "=" value.
Proof.
  intros Hk Hv.
  apply TrimSpace_fixed_iff in Hk as [Hk _].
  apply TrimSpace_fixed_iff in Hv as [_ Hv].
  apply TrimSpace_fixed_iff. rewrite list_of_append. simpl list_ascii_of_string. split.
  - destruct (list_ascii_of_string key) as [|c l] eqn:E.
    + apply startsWithSpace_plain, plainByte_equals.
    + rewrite <- E. apply startsWithSpace_before_ascii; [by rewrite E|by rewrite E|].
      by vm_compute.
  - rewrite rev_app_distr. simpl rev. rewrite <- app_assoc. simpl app.
    destruct (rev (list_ascii_of_string value)) as [|c l] eqn:E.
    + apply endsWithSpaceRev_plain, plainByte_equals.
    + apply endsWithSpaceRev_before_ascii; [done|done|by vm_compute].
Qed.

Lemma entry_not_comment (key value : string) :
  ~ startsWith "#"%char key ->
  String.eqb (key ++ String "=" value) "" || HasPrefix (key ++ String "=" value) "#"
  = false.
Proof.
  intros Hkey. apply orb_false_iff. split.
  - by destruct key.
  - apply not_true_is_false. intros H. apply HasPrefix_hash in H as [rest Hrest].
    destruct key as [|c key].
    + by rewrite append_empty_l in Hrest.
    + rewrite append_cons in Hrest. injection Hrest as -> _.
      apply Hkey. by exists key.
Qed.

Lemma parseLine_entry_back (key value : string) :
  wellFormedKey key ->
  TrimSpace value = value ->
  ~ quotedWith doubleQuote value -> ~ quotedWith singleQuote value ->
  parseLine (key ++ String "=" value) = Some (key, value).
Proof.
  intros (Hk & Hno & Hhash) Hv Hd Hs. unfold parseLine.
  rewrite trimmed_entry by done.
  rewrite entry_not_comment by done.
  rewrite SplitN2_cut by done.
  by rewrite Hk, Hv, stripQuotes_other.
Qed.

Lemma wellFormedKey_export (key : string) :
  wellFormedKey key -> key <> "" -> wellFormedKey ("export " ++ key).
Proof.
  intros (Hk & Hno & _) Hne. split; [|split].
  - apply TrimSpace_fixed_iff in Hk as [_ Hk].
    apply TrimSpace_fixed_iff. rewrite list_of_append. split.
    + apply startsWithSpace_plain, plainByte_e.
    + rewrite rev_app_distr.
      apply endsWithSpaceRev_before_ascii; [|done|by vm_compute].
      destruct key; [done|]. simpl. intros H.
      apply (f_equal (@length ascii)) in H. rewrite length_app in H. simpl in H. lia.
  - rewrite occurs_append. intros [H|H]; [|done].
    simpl in H. intuition discriminate.
  - intros [rest H]. discriminate H.
Qed.

End ParserMore.

(** X1.  Whatever the line, a key that the parser records is trimmed,
    holds no '=' and does not start with '#'. *)
Theorem parsed_key_well_formed (text key value : string) :
  parseLine text = Some (key, value) ->
  Strings.TrimSpace key = key
  /\ ~ occurs "="%char key
  /\ ~ startsWith "#"%char key.
Proof. apply parseLine_key. Qed.

Lemma parsed_key_well_formed_witness :
  Strings.TrimSpace "KEY" = "KEY"
  /\ ~ occurs "="%char "KEY"
  /\ ~ startsWith "#"%char "KEY".
Proof.
  apply (parsed_key_well_formed Fixtures.quotedLine "KEY" "a b").
  vm_compute. reflexivity.
Defined.

(** X2.  Every key of a mapping that [LoadEnvFiles] returns is trimmed,
    holds no '=' and does not start with '#'. *)
Theorem loaded_keys_well_formed
    (fs : OS.FS) (e : Env) (profile : string) (m : gmap string string) (key : string) :
  LoadEnvFiles fs e profile = (Some m, None) ->
  is_Some (m !! key) ->
  wellFormedKey key.
Proof.
  intros Hrun. apply (loadDirs_keys _ _ _ _ _ Hrun).
  intros k. rewrite lookup_empty. by intros [? ?].
Qed.

Lemma loaded_keys_well_formed_witness : wellFormedKey "CONFIG_ONLY".
Proof.
  apply (loaded_keys_well_formed Fixtures.hierarchical Fixtures.env0 ""
           Fixtures.hierarchicalEnvs "CONFIG_ONLY").
  - vm_compute. reflexivity.
  - vm_compute. eexists. reflexivity.
Defined.

(** X3.  ASCII white space before and after a line plays no role: the
    line is parsed as without it. *)
Theorem surrounding_blanks_ignored (before text after : string) :
  asciiBlank before -> asciiBlank after ->
  parseLine (before ++ text ++ after) = parseLine text.
Proof.
  intros Hb Ha. unfold parseLine. by rewrite TrimSpace_padded.
Qed.

Lemma surrounding_blanks_ignored_witness :
  parseLine ("  " ++ "K=v" ++ String "009" (String "013" "")) = parseLine "K=v".
Proof.
  apply surrounding_blanks_ignored.
  - intros c Hc. simpl in Hc. by destruct Hc as [<-|[<-|[]]].
  - intros c Hc. simpl in Hc. by destruct Hc as [<-|[<-|[]]].
Defined.

(** X4.  Round trip with the entries the command builds: for a
    well-formed key and a value that is trimmed and not enclosed in
    quotes, parsing "key=value" gives back the key and the value. *)
Theorem entry_round_trip (key value : string) :
  wellFormedKey key ->
  Strings.TrimSpace value = value ->
  ~ quotedWith doubleQuote value ->
  ~ quotedWith singleQuote value ->
  parseLine (Cmd.envEntry key value) = Some (key, value).
Proof. apply parseLine_entry_back. Qed.

Lemma entry_round_trip_witness :
  parseLine (Cmd.envEntry "API_KEY" "a b=c") = Some ("API_KEY", "a b=c").
Proof.
  apply entry_round_trip.
  - split; [reflexivity|]. split.
    + simpl. intuition discriminate.
    + intros [rest H]. discriminate H.
  - reflexivity.
  - intros (_ & H & _). discriminate H.
  - intros (_ & H & _). discriminate H.
Defined.

(** X5.  The listing that the command prints cannot be read back as it
    is: a printed line, taken as a line of an env file, gives the key
    with "export " before it. *)
Theorem listing_read_back (key value : string) :
  wellFormedKey key -> key <> "" ->
  Strings.TrimSpace value = value ->
  ~ quotedWith doubleQuote value ->
  ~ quotedWith singleQuote value ->
  exists line,
    Cmd.exportLine key value = line ++ String Bufio.newline ""
    /\ parseLine line = Some ("export " ++ key, value).
Proof.
  intros Hkey Hne Hv Hd Hs.
  exists (("export " ++ key) ++ String "="%char value). split.
  - unfold Cmd.exportLine. by rewrite !append_assoc.
  - apply parseLine_entry_back; [by apply wellFormedKey_export|done..].
Qed.

Lemma listing_read_back_witness :
  exists line,
    Cmd.exportLine "API_KEY" "secret" = line ++ String Bufio.newline ""
    /\ parseLine line = Some ("export " ++ "API_KEY", "secret").
Proof.
  apply listing_read_back.
  - split; [reflexivity|]. split.
    + simpl. intuition discriminate.
    + intros [rest H]. discriminate H.
  - discriminate.
  - reflexivity.
  - intros (_ & H & _). discriminate H.
  - intros (_ & H & _). discriminate H.
Defined.

(* ===================================================================== *)
(** * More on loading files *)
(* ===================================================================== *)

Section LoadingMore.

Lemma scanFrom_final_newline (input : string) (cur : list ascii) (n : N) :
  (input = "" -> n <> 0%N) ->
  (forall body, input <> body ++ String Bufio.newline "") ->
  Bufio.scanFrom (input ++ String Bufio.newline "") cur n = Bufio.scanFrom input cur n.
Proof.
  revert cur n. induction input as [|c rest IH]; intros cur n Hn Hend.
  - rewrite append_empty_l. simpl.
    destruct (N.eqb_spec n 0) as [->|_]; [by destruct Hn|done].
  - rewrite append_cons. simpl.
    assert (Hrest : forall body, rest <> body ++ String Bufio.newline "").
    { intros body ->. by apply (Hend (String c body)). }
    destruct (Ascii.eqb_spec c Bufio.newline) as [->|Hc].
    + rewrite IH; [done| |done].
      intros ->. exfalso. by apply (Hend "").
    + destruct (Bufio.MaxScanTokenSize <=? n + 1)%N; [done|].
      apply IH; [|done]. intros _. lia.
Qed.

Lemma loadEnvFile_lookup (fs : OS.FS) (envPath : string) (envs : gmap string string)
    (key : string) :
  fst (loadEnvFile fs envPath envs) !! key
  = match fst (loadEnvFile fs envPath ∅) !! key with
    | Some value => Some value
    | None => envs !! key
    end.
Proof.
  rewrite loadEnvFile_state, lookup_union.
  by destruct (fst (loadEnvFile fs envPath ∅) !! key), (envs !! key).
Qed.

Lemma loadEnvFile_twice (fs : OS.FS) (envPath : string) (envs : gmap string string) :
  fst (loadEnvFile fs envPath (fst (loadEnvFile fs envPath envs)))
  = fst (loadEnvFile fs envPath envs).
Proof.
  rewrite (loadEnvFile_state fs envPath (fst _)), (loadEnvFile_state fs envPath envs).
  by rewrite (assoc_L (∪)), (idemp_L (∪)).
Qed.

End LoadingMore.

(** X6.  [loadEnvFile] fails in exactly three cases: the file cannot be
    opened for another reason than its absence (the error is that of
    [os.Open]), a line does not fit the scanner's buffer (the error is
    [bufio.ErrTooLong]), or reading stops on an error (the error is that
    of the read). *)
Theorem loadEnvFile_fails_iff
    (fs : OS.FS) (envPath : string) (envs : gmap string string) (err : error) :
  snd (loadEnvFile fs envPath envs) = Some err <->
  (exists e, OS.sysOpen fs envPath = inl e /\ e <> ENOENT
             /\ err = PathError "open" envPath e)
  \/ (exists file, OS.sysOpen fs envPath = inr file
        /\ ((snd (Bufio.scanLines (OS.data file)) = true /\ err = ErrTooLong)
            \/ (snd (Bufio.scanLines (OS.data file)) = false
                /\ exists e, OS.readErr file = Some e
                             /\ err = PathError "read" envPath e))).
Proof. apply loadEnvFile_failure. Qed.

(** X7.  [LoadEnvFiles] returns either a mapping and no error, or no
    mapping and an error; the error then wraps the error of
    [loadEnvFile] on the env path of a search directory whose file
    [os.Stat] has found, and its message is "failed to load ", the path,
    ": " and the message of that error. *)
Theorem LoadEnvFiles_outcome (fs : OS.FS) (e : Env) (profile : string) :
  (exists m, LoadEnvFiles fs e profile = (Some m, None))
  \/ (exists dir err,
        In dir (getSearchDirectories e)
        /\ OS.Stat fs (envPathOf (envFilename profile) dir) = None
        /\ snd (loadEnvFile fs (envPathOf (envFilename profile) dir) ∅) = Some err
        /\ LoadEnvFiles fs e profile
           = (None, Some (wrapError ("failed to load "
                                     ++ envPathOf (envFilename profile) dir
                                     ++ ": " ++ Error err) err))).
Proof.
  unfold LoadEnvFiles.
  destruct (loadDirs_outcome fs (envFilename profile) (rev (getSearchDirectories e)) ∅)
    as [Hok|(dir & err & Hdir & Hstat & Herr & Hrun)]; [by left|].
  right. exists dir, err. split; [by apply in_rev|]. by repeat split.
Qed.

(** X8.  Existing entries and one file: after [loadEnvFile], a key that
    the file defines has the file's value and every other key has the
    value it had before. *)
Theorem loadEnvFile_overwrites_only_its_keys
    (fs : OS.FS) (envPath : string) (envs : gmap string string) (key : string) :
  fst (loadEnvFile fs envPath envs) !! key
  = match fst (loadEnvFile fs envPath ∅) !! key with
    | Some value => Some value
    | None => envs !! key
    end.
Proof. apply loadEnvFile_lookup. Qed.

(** X9.  An env file reached through both search directories counts
    once: when the working directory is the envdo directory of the
    configuration root, [LoadEnvFiles] returns what it returns without
    the configuration root. *)
Theorem same_directory_twice
    (fs : OS.FS) (workingDirectory configRootDirectory profile : string) :
  workingDirectory <> "" ->
  configRootDirectory <> "" ->
  Filepath.Join [configRootDirectory; "envdo"] = workingDirectory ->
  LoadEnvFiles fs (New workingDirectory configRootDirectory) profile
  = LoadEnvFiles fs (New workingDirectory "") profile.
Proof.
  intros Hw Hc Hsame. unfold LoadEnvFiles, getSearchDirectories, New.
  cbn [pwd configDir].
  rewrite (proj2 (String.eqb_neq _ _) Hw), (proj2 (String.eqb_neq _ _) Hc), Hsame.
  cbn [negb String.eqb app rev loadDirs].
  generalize (Filepath.Join [workingDirectory; envFilename profile]). intros envPath.
  destruct (OS.Stat fs envPath); [done|].
  pose proof (loadEnvFile_twice fs envPath ∅) as Htwice.
  pose proof (loadEnvFile_err fs envPath (fst (loadEnvFile fs envPath ∅))) as Herr.
  destruct (loadEnvFile fs envPath ∅) as [envs' [err|]] eqn:Hfirst; [done|].
  cbn [fst snd] in Htwice, Herr.
  destruct (loadEnvFile fs envPath envs') as [envs'' err'].
  cbn [fst snd] in Htwice, Herr. by subst.
Qed.

Lemma same_directory_twice_witness :
  LoadEnvFiles Fixtures.hierarchical (New "/cfg/envdo" "/cfg") ""
  = LoadEnvFiles Fixtures.hierarchical (New "/cfg/envdo" "") "".
Proof.
  apply same_directory_twice; [discriminate|discriminate|reflexivity].
Defined.

(** X10.  The final newline of a file is optional: a file that does not
    end with a newline is loaded as the same file with a newline added. *)
Theorem final_newline_optional
    (fs fs' : OS.FS) (envPath : string) (envs : gmap string string)
    (contents : string) (readErr : option Errno) :
  OS.sysOpen fs envPath = inr (OS.mkFile contents readErr) ->
  OS.sysOpen fs' envPath
  = inr (OS.mkFile (contents ++ String Bufio.newline "") readErr) ->
  contents <> "" ->
  (forall body, contents <> body ++ String Bufio.newline "") ->
  loadEnvFile fs' envPath envs = loadEnvFile fs envPath envs.
Proof.
  intros Hopen Hopen' Hne Hend. unfold loadEnvFile, OS.Open.
  rewrite Hopen, Hopen'. cbn [OS.data OS.readErr]. unfold Bufio.scanLines.
  by rewrite scanFrom_final_newline.
Qed.

Lemma final_newline_optional_witness :
  loadEnvFile Surroundings.terminated "/pwd/.env" ∅
  = loadEnvFile Surroundings.unterminated "/pwd/.env" ∅.
Proof.
  apply (final_newline_optional Surroundings.unterminated Surroundings.terminated
           "/pwd/.env" ∅ ("A=1" ++ Fixtures.nl ++ "B=2") None).
  - reflexivity.
  - reflexivity.
  - discriminate.
  - intros body H. vm_compute in H.
    destruct body as [|? [|? [|? [|? [|? [|? [|? [|? ?]]]]]]]]; discriminate H.
Defined.

(* ===================================================================== *)
(** * More on paths *)
(* ===================================================================== *)

Section PathsMore.

Import Filepath.

Lemma elements_app_sep (a b : string) :
  elements (a ++ String Separator b) = (elements a ++ elements b)%list.
Proof.
  induction a as [|c a IH].
  - rewrite append_empty_l. simpl.
    pose proof (elements_not_nil b). by destruct (elements b).
  - rewrite append_cons. simpl. rewrite IH.
    pose proof (elements_not_nil a). destruct (elements a) as [|e es]; [done|].
    simpl. by destruct (Ascii.eqb c Separator).
Qed.

Lemma append_not_empty_r (a b : string) : b <> "" -> a ++ b <> "".
Proof. intros Hb. destruct a; [by rewrite append_empty_l|by rewrite append_cons]. Qed.

(** A plain name joined to a directory is still the last element of the
    cleaned path. *)
Lemma Clean_last_plain (dir name : string) :
  plainName name ->
  exists parent,
    Clean (dir ++ "/" ++ name) = parent ++ name
    /\ (parent = "" \/ exists q, parent = q ++ "/").
Proof.
  intros Hname. pose proof Hname as (Hne & _ & _ & Hsep).
  unfold Clean.
  assert (Hp : String.eqb (dir ++ "/" ++ name) "" = false).
  { apply String.eqb_neq. by apply append_not_empty_r. }
  rewrite Hp.
  change (dir ++ "/" ++ name) with (dir ++ String Separator name).
  rewrite elements_app_sep, (elements_name name Hsep), fold_left_app.
  cbn [fold_left]. rewrite cleanStep_plain by done.
  set (out := fold_left _ (elements dir) []).
  cbn [rev]. destruct (rev out) as [|el els] eqn:Hout.
  - cbn [app String.concat].
    destruct (rooted _).
    + exists "/". split; [done|]. right. by exists "".
    + rewrite (proj2 (String.eqb_neq _ _) Hne). exists "". by split; [|left].
  - rewrite concat_snoc by done.
    destruct (rooted _).
    + exists ("/" ++ String.concat "/" (el :: els) ++ "/").
      split; [by rewrite !append_assoc|]. right.
      exists ("/" ++ String.concat "/" (el :: els)). by rewrite !append_assoc.
    + assert (Hbody : String.eqb (String.concat "/" (el :: els) ++ "/" ++ name) "" = false).
      { apply String.eqb_neq. by apply append_not_empty_r. }
      rewrite Hbody. exists (String.concat "/" (el :: els) ++ "/").
      split; [by rewrite !append_assoc|]. right. by eexists.
Qed.

Lemma Join_last_plain (dir name : string) :
  dir <> "" -> plainName name ->
  exists parent,
    Join [dir; name] = parent ++ name
    /\ (parent = "" \/ exists q, parent = q ++ "/").
Proof.
  intros Hdir Hname. unfold Join.
  rewrite (proj2 (String.eqb_neq _ _) Hdir).
  change (String.concat "/" [dir; name]) with (dir ++ "/" ++ name).
  by apply Clean_last_plain.
Qed.

Lemma plainName_filename (profile : string) :
  ~ occurs Separator profile -> plainName (envFilename profile).
Proof.
  intros Hsep. unfold envFilename.
  destruct (String.eqb profile ""); cbn [negb].
  - repeat split; try discriminate. simpl. unfold Separator. intuition discriminate.
  - rewrite !append_cons, append_empty_l.
    repeat split; try discriminate. simpl. unfold Separator in *.
    intuition discriminate.
Qed.

Lemma getSearchDirectories_not_empty (e : Env) (dir : string) :
  In dir (getSearchDirectories e) -> dir <> "".
Proof.
  unfold getSearchDirectories.
  destruct (String.eqb_spec (pwd e) "") as [|Hp];
    destruct (String.eqb_spec (configDir e) "") as [|Hc]; cbn [negb app In].
  - done.
  - intros [<-|[]].
    destruct (Join_last_plain (configDir e) "envdo" Hc plainName_envdo) as (parent & -> & _).
    by apply append_not_empty_r.
  - by intros [<-|[]].
  - intros [<-|[<-|[]]]; [done|].
    destruct (Join_last_plain (configDir e) "envdo" Hc plainName_envdo) as (parent & -> & _).
    by apply append_not_empty_r.
Qed.

(** Joining a plain name to a plain path is concatenation, and gives a
    plain path. *)
Lemma plainPath_not_empty (p : string) : plainPath p -> p <> "".
Proof.
  intros (names & Hne & Hall & [-> | ->]); [|done].
  by apply concat_plain_not_empty.
Qed.

Lemma plainPath_snoc (p name : string) :
  plainPath p -> plainName name -> plainPath (p ++ "/" ++ name).
Proof.
  intros (names & Hne & Hall & Hp) Hname.
  exists (names ++ [name])%list. split; [by destruct names|]. split.
  - apply Forall_app. split; [done|]. constructor; [done|constructor].
  - rewrite concat_snoc by done.
    destruct Hp as [-> | ->]; [by left|right]. by rewrite append_assoc.
Qed.

Lemma Join_plain (p name : string) :
  plainPath p -> plainName name -> Join [p; name] = p ++ "/" ++ name.
Proof.
  intros Hp Hname.
  pose proof (plainPath_not_empty p Hp) as Hne.
  destruct (plainPath_snoc p name Hp Hname) as (names & Hnames & Hall & Hshape).
  unfold Join. rewrite (proj2 (String.eqb_neq _ _) Hne).
  change (String.concat "/" [p; name]) with (p ++ "/" ++ name).
  destruct Hshape as [-> | ->].
  - by apply Clean_plain_relative.
  - by apply Clean_plain_rooted.
Qed.

Lemma plainName_dot_config : plainName ".config".
Proof.
  repeat split; try discriminate. simpl. unfold Separator. intuition discriminate.
Qed.

End PathsMore.

(** X11.  The search directories are at most two, none of them is the
    empty path, and when the configuration root is not empty the last
    one is "envdo" or ends with "/envdo". *)
Theorem search_directories_shape (e : Env) :
  length (getSearchDirectories e) <= 2
  /\ (forall dir, In dir (getSearchDirectories e) -> dir <> "")
  /\ (configDir e <> "" ->
      exists parent,
        List.last (getSearchDirectories e) "" = parent ++ "envdo"
        /\ (parent = "" \/ exists q, parent = q ++ "/")).
Proof.
  split; [apply getSearchDirectories_length|]. split.
  - apply getSearchDirectories_not_empty.
  - intros Hc. unfold getSearchDirectories.
    rewrite (proj2 (String.eqb_neq _ _) Hc). cbn [negb].
    destruct (negb (String.eqb (pwd e) "")); cbn [app List.last];
      by apply Join_last_plain; [|apply plainName_envdo].
Qed.

Lemma search_directories_shape_witness :
  exists parent,
    List.last (getSearchDirectories (New "/pwd" "/a/../cfg/")) "" = parent ++ "envdo"
    /\ (parent = "" \/ exists q, parent = q ++ "/").
Proof.
  apply (proj2 (proj2 (search_directories_shape (New "/pwd" "/a/../cfg/")))).
  discriminate.
Defined.

(** X12.  A profile that holds no slash cannot lead out of the search
    directories: every path that [LoadEnvFiles] builds is the file name
    itself or ends with a slash followed by the file name. *)
Theorem no_traversal_without_slash (e : Env) (profile dir : string) :
  ~ occurs "/"%char profile ->
  In dir (getSearchDirectories e) ->
  exists parent,
    envPathOf (envFilename profile) dir = parent ++ envFilename profile
    /\ (parent = "" \/ exists q, parent = q ++ "/").
Proof.
  intros Hprofile Hdir. unfold envPathOf. apply Join_last_plain.
  - by apply (getSearchDirectories_not_empty e).
  - by apply plainName_filename.
Qed.

Lemma no_traversal_without_slash_witness :
  exists parent,
    envPathOf (envFilename "..") "/pwd" = parent ++ envFilename ".."
    /\ (parent = "" \/ exists q, parent = q ++ "/").
Proof.
  apply (no_traversal_without_slash Fixtures.env0 ".." "/pwd").
  - simpl. intuition discriminate.
  - left. reflexivity.
Defined.

(* ===================================================================== *)
(** * The default directories and the command *)
(* ===================================================================== *)

Section Surrounded.

Lemma LoadEnvFiles_two_outcomes (fs : OS.FS) (e : Env) (profile : string) :
  (exists m, LoadEnvFiles fs e profile = (Some m, None))
  \/ (exists err, LoadEnvFiles fs e profile = (None, Some err)).
Proof.
  unfold LoadEnvFiles.
  destruct (loadDirs_outcome fs (envFilename profile) (rev (getSearchDirectories e)) ∅)
    as [Hok|(dir & err & _ & _ & _ & Hrun)]; [by left|].
  right. by eexists.
Qed.

Lemma Default_LoadEnvFiles_unfold (fs : OS.FS) (proc : Process) (profile : string) :
  exists e, Default.LoadEnvFiles fs proc profile = LoadEnvFiles fs e profile
            /\ pwd e = match sysGetwd proc with Some dir => dir | None => "" end.
Proof. eexists. split; reflexivity. Qed.

Lemma getSearchDirectories_plain (w c : string) :
  plainPath w -> plainPath c ->
  getSearchDirectories (New w c) = [w; c ++ "/envdo"].
Proof.
  intros Hw Hc. unfold getSearchDirectories, New. cbn [pwd configDir].
  rewrite (proj2 (String.eqb_neq _ _) (plainPath_not_empty w Hw)).
  rewrite (proj2 (String.eqb_neq _ _) (plainPath_not_empty c Hc)).
  cbn [negb app]. by rewrite (Join_plain_envdo c Hc).
Qed.

End Surrounded.

(** X13.  Without a working directory, XDG_CONFIG_HOME and HOME, the
    package-level [LoadEnvFiles] searches nothing: whatever the file
    system and the profile, it returns the empty mapping and no error. *)
Theorem no_surroundings_empty_mapping (fs : OS.FS) (proc : Process) (profile : string) :
  sysGetwd proc = None ->
  sysGetenv proc "XDG_CONFIG_HOME" = "" ->
  sysGetenv proc "HOME" = "" ->
  Default.LoadEnvFiles fs proc profile = (Some ∅, None).
Proof.
  intros Hwd Hxdg Hhome.
  unfold Default.LoadEnvFiles, Default.UserHomeDir. by rewrite Hwd, Hxdg, Hhome.
Qed.

Lemma no_surroundings_empty_mapping_witness :
  Default.LoadEnvFiles Fixtures.hierarchical Surroundings.bare "" = (Some ∅, None).
Proof. apply no_surroundings_empty_mapping; reflexivity. Defined.

(** X14.  With XDG_CONFIG_HOME unset, the configuration root is the
    directory .config of the home directory: for a working directory and
    a home directory that are plain paths, the directories searched are
    the working directory and <home>/.config/envdo, and for a profile
    without slash the files looked up are these directories, a slash and
    the file name. *)
Theorem home_fallback
    (fs : OS.FS) (proc : Process) (profile workingDirectory home : string) :
  sysGetwd proc = Some workingDirectory ->
  sysGetenv proc "XDG_CONFIG_HOME" = "" ->
  sysGetenv proc "HOME" = home ->
  plainPath workingDirectory ->
  plainPath home ->
  ~ occurs "/"%char profile ->
  Default.LoadEnvFiles fs proc profile
  = LoadEnvFiles fs (New workingDirectory (home ++ "/.config")) profile
  /\ getSearchDirectories (New workingDirectory (home ++ "/.config"))
     = [workingDirectory; home ++ "/.config/envdo"]
  /\ envPathOf (envFilename profile) workingDirectory
     = workingDirectory ++ "/" ++ envFilename profile
  /\ envPathOf (envFilename profile) (home ++ "/.config/envdo")
     = home ++ "/.config/envdo/" ++ envFilename profile.
Proof.
  intros Hwd Hxdg Hhome Hw Hh Hprofile.
  pose proof (plainPath_snoc home ".config" Hh plainName_dot_config) as Hcfg.
  pose proof (plainPath_snoc _ "envdo" Hcfg plainName_envdo) as Henvdo.
  pose proof (plainName_filename profile Hprofile) as Hname.
  split; [|split; [|split]].
  - unfold Default.LoadEnvFiles, Default.UserHomeDir.
    rewrite Hwd, Hxdg, Hhome. cbn [String.eqb].
    rewrite (proj2 (String.eqb_neq _ _) (plainPath_not_empty home Hh)). cbn [negb].
    by rewrite (Join_plain home ".config" Hh plainName_dot_config).
  - rewrite getSearchDirectories_plain by done. by rewrite append_assoc.
  - unfold envPathOf. by apply Join_plain.
  - unfold envPathOf.
    replace (home ++ "/.config/envdo") with ((home ++ "/" ++ ".config") ++ "/" ++ "envdo")
      by by rewrite !append_assoc.
    rewrite Join_plain by done. by rewrite !append_assoc.
Qed.

Lemma home_fallback_witness :
  Default.LoadEnvFiles Surroundings.homeFiles Surroundings.withHome ""
  = LoadEnvFiles Surroundings.homeFiles (New "/work" ("/home/u" ++ "/.config")) ""
  /\ getSearchDirectories (New "/work" ("/home/u" ++ "/.config"))
     = ["/work"; "/home/u" ++ "/.config/envdo"]
  /\ envPathOf (envFilename "") "/work" = "/work" ++ "/" ++ envFilename ""
  /\ envPathOf (envFilename "") ("/home/u" ++ "/.config/envdo")
     = "/home/u" ++ "/.config/envdo/" ++ envFilename "".
Proof.
  apply home_fallback.
  - reflexivity.
  - reflexivity.
  - reflexivity.
  - exists ["work"]. split; [discriminate|]. split; [|by right].
    constructor; [|constructor]. repeat split; try discriminate.
    simpl. unfold Filepath.Separator. intuition discriminate.
  - exists ["home"; "u"]. split; [discriminate|]. split; [|by right].
    constructor; [|constructor; [|constructor]];
      (repeat split; try discriminate; simpl; unfold Filepath.Separator;
       intuition discriminate).
  - simpl. tauto.
Defined.

(** X15.  XDG_CONFIG_HOME, when set, decides the configuration root and
    the home directory is not used: for a working directory and a value
    of XDG_CONFIG_HOME that are plain paths, the directories searched are
    the working directory and <XDG_CONFIG_HOME>/envdo. *)
Theorem xdg_config_home_first
    (fs : OS.FS) (proc : Process) (profile workingDirectory xdg : string) :
  sysGetwd proc = Some workingDirectory ->
  sysGetenv proc "XDG_CONFIG_HOME" = xdg ->
  plainPath workingDirectory ->
  plainPath xdg ->
  Default.LoadEnvFiles fs proc profile
  = LoadEnvFiles fs (New workingDirectory xdg) profile
  /\ getSearchDirectories (New workingDirectory xdg) = [workingDirectory; xdg ++ "/envdo"].
Proof.
  intros Hwd Hxdg Hw Hx. split.
  - unfold Default.LoadEnvFiles. rewrite Hwd, Hxdg.
    by rewrite (proj2 (String.eqb_neq _ _) (plainPath_not_empty xdg Hx)).
  - by apply getSearchDirectories_plain.
Qed.

Lemma xdg_config_home_first_witness :
  Default.LoadEnvFiles Surroundings.homeFiles Surroundings.withXdg ""
  = LoadEnvFiles Surroundings.homeFiles (New "/work" "/xdg") ""
  /\ getSearchDirectories (New "/work" "/xdg") = ["/work"; "/xdg" ++ "/envdo"].
Proof.
  apply xdg_config_home_first.
  - reflexivity.
  - reflexivity.
  - exists ["work"]. split; [discriminate|]. split; [|by right].
    constructor; [|constructor]. repeat split; try discriminate.
    simpl. unfold Filepath.Separator. intuition discriminate.
  - exists ["xdg"]. split; [discriminate|]. split; [|by right].
    constructor; [|constructor]. repeat split; try discriminate.
    simpl. unfold Filepath.Separator. intuition discriminate.
Defined.

(** X16.  When [RunE] runs a command, loading has succeeded, the command
    and its arguments are the arguments given, and the environment is
    the inherited one followed by one entry for each loaded variable;
    each of these entries, cut at its first '=', gives back the key and
    the value of the variable. *)
Theorem command_environment
    (rangeOrder : gmap string string -> list (string * string))
    (fs : OS.FS) (proc : Process) (profile : string) (args : list string)
    (name : string) (arg env : list string) :
  rangesOverMaps rangeOrder ->
  Cmd.RunE rangeOrder fs proc profile args = Cmd.Command name arg env ->
  args = name :: arg
  /\ exists m loaded,
       Default.LoadEnvFiles fs proc profile = (Some m, None)
       /\ env = (sysEnviron proc ++ loaded)%list
       /\ loaded ≡ₚ map (fun kv => Cmd.envEntry (fst kv) (snd kv)) (map_to_list m)
       /\ forall entry, In entry loaded ->
            exists key value,
              m !! key = Some value
              /\ Strings.SplitN2 entry "="%char = [key; value].
Proof.
  intros Hrange. unfold Cmd.RunE.
  destruct (Default_LoadEnvFiles_unfold fs proc profile) as (e & -> & _).
  destruct (LoadEnvFiles_two_outcomes fs e profile) as [[m Hrun]|[err Hrun]];
    rewrite Hrun; [|done].
  destruct args as [|command rest]; [done|].
  intros [= <- <- <-]. split; [done|].
  exists m, (map (fun kv => Cmd.envEntry (fst kv) (snd kv)) (rangeOrder m)).
  split; [done|]. split; [done|]. split.
  - apply Permutation_map, Hrange.
  - intros entry Hentry. apply in_map_iff in Hentry as ([key value] & <- & Hin).
    assert (Hlookup : m !! key = Some value).
    { apply elem_of_map_to_list. rewrite <- (Hrange m). by apply list_elem_of_In. }
    exists key, value. split; [done|].
    assert (Hkey : wellFormedKey key).
    { apply (loadDirs_keys _ _ _ _ _ Hrun); [|by eexists].
      intros k. rewrite lookup_empty. by intros [? ?]. }
    destruct Hkey as (_ & Hno & _).
    unfold Cmd.envEntry. cbn [fst snd].
    change (key ++ "=" ++ value) with (key ++ String "="%char value).
    by apply SplitN2_cut.
Qed.

Lemma command_environment_witness :
  ["echo"; "hi"] = "echo" :: ["hi"]
  /\ exists m loaded,
       Default.LoadEnvFiles Fixtures.hierarchical Surroundings.inPwd "" = (Some m, None)
       /\ (sysEnviron Surroundings.inPwd
           ++ map (fun kv => Cmd.envEntry (fst kv) (snd kv))
                  (map_to_list Fixtures.hierarchicalEnvs))%list
          = (sysEnviron Surroundings.inPwd ++ loaded)%list
       /\ loaded ≡ₚ map (fun kv => Cmd.envEntry (fst kv) (snd kv)) (map_to_list m)
       /\ forall entry, In entry loaded ->
            exists key value,
              m !! key = Some value
              /\ Strings.SplitN2 entry "="%char = [key; value].
Proof.
  apply (command_environment map_to_list Fixtures.hierarchical Surroundings.inPwd ""
           ["echo"; "hi"] "echo" ["hi"]).
  - intros m. reflexivity.
  - vm_compute. reflexivity.
Defined.

(** X17.  An env file of the working directory that [os.Stat] finds and
    that fails to load stops everything: whatever the arguments, [RunE]
    returns an error, prints nothing and runs no command. *)
Theorem broken_env_file_stops_the_command
    (rangeOrder : gmap string string -> list (string * string))
    (fs : OS.FS) (proc : Process) (profile : string) (args : list string)
    (workingDirectory : string) (err : error) :
  sysGetwd proc = Some workingDirectory ->
  workingDirectory <> "" ->
  OS.Stat fs (envPathOf (envFilename profile) workingDirectory) = None ->
  snd (loadEnvFile fs (envPathOf (envFilename profile) workingDirectory) ∅) = Some err ->
  exists failure, Cmd.RunE rangeOrder fs proc profile args = Cmd.ReturnError failure.
Proof.
  intros Hwd Hne Hstat Herr. unfold Cmd.RunE.
  destruct (Default_LoadEnvFiles_unfold fs proc profile) as (e & -> & Hpwd).
  rewrite Hwd in Hpwd.
  assert (Hin : In workingDirectory (rev (getSearchDirectories e))).
  { apply -> in_rev. unfold getSearchDirectories. rewrite Hpwd.
    rewrite (proj2 (String.eqb_neq _ _) Hne). cbn [negb app].
    destruct (negb (String.eqb (configDir e) "")); by left. }
  destruct (loadDirs_aborts fs (envFilename profile) _ ∅ _ _ Hin Hstat Herr)
    as (d & failure & _ & _ & Hrun).
  unfold LoadEnvFiles. rewrite Hrun. by eexists.
Qed.

Lemma broken_env_file_stops_the_command_witness :
  exists failure,
    Cmd.RunE map_to_list Fixtures.openDenied Surroundings.inPwd "" ["echo"; "hi"]
    = Cmd.ReturnError failure.
Proof.
  apply (broken_env_file_stops_the_command map_to_list Fixtures.openDenied
           Surroundings.inPwd "" ["echo"; "hi"] "/pwd"
           (PathError "open" "/pwd/.env" EACCES)).
  - reflexivity.
  - discriminate.
  - reflexivity.
  - reflexivity.
Defined.
